(** * Shiptivity API: the client update handler of [src/server.js]

    A shallow embedding of [PUT /api/v1/clients/:id] (lines 130-214) and of
    the helpers it calls, followed by the properties of the priority and
    status reassignment that the specification states.

    The handler loads every row of the [clients] table into one JavaScript
    array, groups references to the objects of that array into two further
    arrays, mutates the objects through those references and finally sends
    the first array.  The objects are therefore shared: the embedding keeps
    the array [clients] as the heap and a reference to one of its objects is
    the index of the object in the array. *)

From Stdlib Require Import QArith Lqa.
From stdpp Require Import base strings numbers list sorting.

Open Scope Z_scope.

(** ** Data model *)

(** A row of the [clients] table, and the JavaScript object made from it.
    [status] is [None] for the JavaScript value [undefined], which the
    handler can store in the field; rows read from the table carry a string.
    [priority] is a JavaScript number: the handler stores [priority - 0.5]
    in it before it renumbers, so the field is rational (every double is a
    rational; comparisons and [index + 1] are exact on the numbers that
    occur, only [priority - 0.5] rounds, see [minus_half]). *)
Module Client.
Record t := Make {
  id : Z;
  name : string;
  description : string;
  status : option string;
  priority : Q
}.

(** [c.status = s] *)
Definition set_status (s : option string) (c : t) : t :=
  Make (id c) (name c) (description c) s (priority c).

(** [c.priority = p] *)
Definition set_priority (p : Q) (c : t) : t :=
  Make (id c) (name c) (description c) (status c) p.
End Client.

(** The array [clients]; a reference to one of its objects is its index. *)
Abbreviation heap := (list Client.t) (only parsing).
Abbreviation ref := nat (only parsing).

Definition status_of (h : heap) (r : ref) : option string :=
  h !! r ≫= Client.status.

Definition priority_of (h : heap) (r : ref) : Q :=
  from_option Client.priority 0%Q (h !! r).

Definition id_of (h : heap) (r : ref) : option Z :=
  Client.id <$> h !! r.

(** [Number.MAX_SAFE_INTEGER] *)
Definition MAX_SAFE_INTEGER : Z := 9007199254740991.

(** ** The request and what the handler does with it *)

(** [req.params.id] after [parseInt(_, 10)]: [None] is [NaN].  [req.body]
    carries the optional [status] (a string) and [priority] (an integer, as
    the comment above the handler documents, that a double holds); [None] is
    an absent field. *)
Record request := Request {
  req_id : option Z;
  req_status : option string;
  req_priority : option Z
}.

Record messageObj := MessageObj { message : string; long_message : string }.

Inductive payload :=
| Message (m : messageObj)
| Clients (clients : list Client.t).

(** [res.status(code).send(body)] *)
Record response := Response { code : Z; body : payload }.

(** The arguments of one [updateStmt.run(status, priority, id)]. *)
Record run := Run { run_status : option string; run_priority : Q; run_id : Z }.

(** How a run ends: the handler returns, reading [client.status] of
    [undefined] throws a [TypeError], or a [send] with a body after a
    response was sent throws [ERR_HTTP_HEADERS_SENT]. *)
Inductive completion :=
| Returned
| ThrewTypeError
| ThrewHeadersSent.

(** What one run of the handler does: the responses it sends, in order, the
    statements it runs on the table, in order, and how it ends. *)
Record outcome := Outcome {
  sent : list response;
  writes : list run;
  finished : completion
}.

(** ** The table *)

(** [select * from clients where id = ? limit 1] *)
Definition db_get (db : list Client.t) (i : Z) : option Client.t :=
  snd <$> list_find (λ c, Client.id c = i) db.

(** [Update clients set status = ?, priority = ? where id = ?] *)
Definition db_update (db : list Client.t) (w : run) : list Client.t :=
  (λ c, if decide (Client.id c = run_id w)
        then Client.set_priority (run_priority w) (Client.set_status (run_status w) c)
        else c) <$> db.

(** The table after the statements of a run. *)
Definition commit (db : list Client.t) (ws : list run) : list Client.t :=
  foldl db_update db ws.

(** ** Validation helpers (lines 26-70) *)

Record validation := Validation { valid : bool; v_message : option messageObj }.

Definition validateId (db : list Client.t) (i : option Z) : validation :=
  match i with
  | None =>
      Validation false
        (Some (MessageObj "Invalid id provided." "Id can only be integer."))
  | Some i =>
      match db_get db i with
      | None =>
          Validation false
            (Some (MessageObj "Invalid id provided."
                     "Cannot find client with that id."))
      | Some _ => Validation true None
      end
  end.

Definition validStatuses : list string := ["backlog"; "in-progress"; "complete"].

(** Truthiness of the two body fields: an absent field and the empty string
    are falsy, an absent field and the number 0 are falsy. *)
Definition truthy_status (status : option string) : bool :=
  match status with
  | Some s => negb (bool_decide (s = EmptyString))
  | None => false
  end.

Definition truthy_priority (priority : option Z) : bool :=
  match priority with
  | Some p => negb (p =? 0)
  | None => false
  end.

(** [validStatuses.includes(status)] *)
Definition includes (l : list string) (status : option string) : bool :=
  match status with
  | Some s => bool_decide (s ∈ l)
  | None => false
  end.

(** ** The reordering (lines 154-201) *)

(** The [forEach] of lines 163-169: references to the objects whose status
    is [oldStatus], and to the other objects whose status is [newStatus]. *)
Definition group_step (h : heap) (oldStatus newStatus : option string)
    (acc : list ref * list ref) (r : ref) : list ref * list ref :=
  if decide (status_of h r = oldStatus) then (acc.1 ++ [r], acc.2)
  else if decide (status_of h r = newStatus) then (acc.1, acc.2 ++ [r])
  else acc.

Definition group (h : heap) (oldStatus newStatus : option string)
    : list ref * list ref :=
  foldl (group_step h oldStatus newStatus) ([], []) (seq 0 (length h)).

(** The comparator [(a, b) => a.priority - b.priority]. *)
Definition compare_priority (h : heap) (a b : ref) : Q :=
  (priority_of h a - priority_of h b)%Q.

(** [Array.prototype.sort] is stable, and the comparator is consistent, so
    the sorted array is the one stable insertion gives: an element goes
    before the first later element that does not compare below it. *)
Fixpoint sort_insert (h : heap) (x : ref) (l : list ref) : list ref :=
  match l with
  | [] => [x]
  | y :: l' =>
      if Qle_bool (compare_priority h x y) 0 then x :: l
      else y :: sort_insert h x l'
  end.

Fixpoint sort (h : heap) (l : list ref) : list ref :=
  match l with
  | [] => []
  | x :: l' => sort_insert h x (sort h l')
  end.

(** [l.forEach((c, index) => (c.priority = index + 1))], from [index]. *)
Fixpoint renumber_from (index : nat) (l : list ref) (h : heap) : heap :=
  match l with
  | [] => h
  | r :: l' =>
      renumber_from (S index) l'
        (alter (Client.set_priority (inject_Z (Z.of_nat index + 1))) r h)
  end.

Definition renumber (l : list ref) (h : heap) : heap := renumber_from 0 l h.

(** The integers [p] for which [p - 0.5] is a double: the half-integers of
    magnitude up to 2^52. *)
Definition half_is_exact (p : Z) : bool :=
  (- 4503599627370496 <? p) && (p <=? 4503599627370496).

(** [priority - 0.5], in double arithmetic; the handler evaluates it only
    for a truthy [priority].  Outside the exact range the doubles around
    [p - 0.5] are the integers [p - 1] and [p], at the same distance, and
    the subtraction rounds to the even one (beyond 2^53 the doubles are
    even and the result is [p]). *)
Definition minus_half (priority : option Z) : Q :=
  match priority with
  | Some p =>
      if half_is_exact p then (inject_Z p - (1 # 2))%Q
      else inject_Z (if Z.even p then p else p - 1)
  | None => 0%Q
  end.

(** [priority && oldPriority !== priority] *)
Definition shouldReorderPriority (oldPriority : Q) (priority : option Z) : bool :=
  match priority with
  | Some p => negb (p =? 0) && negb (Qeq_bool oldPriority (inject_Z p))
  | None => false
  end.

(** Lines 154-201.  [t] is the reference [client] that [clients.find]
    returned and [client] the object it refers to.  The result is the array
    [clients] after the mutations and the array [updatedClients]. *)
Definition reorder (clients : heap) (t : ref) (client : Client.t)
    (status : option string) (priority : option Z) : heap * list ref :=
  let newStatus := status in
  let oldStatus := Client.status client in
  let oldPriority := Client.priority client in
  let '(clientsWithSameOldStatus, clientsWithSameNewStatus) :=
    group clients oldStatus newStatus in
  let '(h, olds, news) :=
    if bool_decide (oldStatus = newStatus)
       && shouldReorderPriority oldPriority priority
    then
      (* Case 1: same status, different priority *)
      let h := alter (Client.set_priority (minus_half priority)) t clients in
      let news := clientsWithSameNewStatus ++ [t] in
      let news := sort h news in
      (renumber news h, clientsWithSameOldStatus, news)
    else if negb (bool_decide (oldStatus = newStatus))
    then
      (* Case 2: status changed *)
      let h := alter (Client.set_status newStatus) t clients in
      let h :=
        alter
          (Client.set_priority
             (if truthy_priority priority then minus_half priority
              else inject_Z MAX_SAFE_INTEGER)) t h in
      let olds :=
        filter (λ r, id_of h r ≠ id_of h t) clientsWithSameOldStatus in
      let olds := sort h olds in
      let h := renumber olds h in
      let news := clientsWithSameNewStatus ++ [t] in
      let news := sort h news in
      (renumber news h, olds, news)
    else (clients, clientsWithSameOldStatus, clientsWithSameNewStatus) in
  let updatedClients :=
    filter (λ r, status_of h r ≠ oldStatus ∧ status_of h r ≠ newStatus)
      (seq 0 (length h))
    ++ olds ++ news in
  (h, updatedClients).

(** The [forEach] inside the transaction (lines 207-211). *)
Definition updates (h : heap) (updatedClients : list ref) : list run :=
  omap (λ r, (λ c, Run (Client.status c) (Client.priority c) (Client.id c))
               <$> h !! r) updatedClients.

(** ** The handler (lines 130-214) *)

Definition invalidStatus : messageObj :=
  MessageObj "Invalid status provided"
    "Status can only be one of the following: [backlog | in-progress | complete]".

(** [return res.status(code).send(body)] with an object as body, after the
    responses [sent0] and the statements [ws]: the response is sent and the
    handler returns, unless a response was sent before; then setting the
    headers throws, nothing more is sent and the handler does not return. *)
Definition send_and_return (sent0 : list response) (ws : list run)
    (r : response) : outcome :=
  match sent0 with
  | [] => Outcome [r] ws Returned
  | _ :: _ => Outcome sent0 ws ThrewHeadersSent
  end.

Definition put_client (db : list Client.t) (rq : request) : outcome :=
  let id := req_id rq in
  let v := validateId db id in
  (* lines 133-135: the response is sent and the handler goes on *)
  let sent0 :=
    if valid v then []
    else from_option (λ m, [Response 400 (Message m)]) [] (v_message v) in
  let status := req_status rq in
  let priority := req_priority rq in
  let clients : heap := db in
  let client := id ≫= λ i, list_find (λ c, Client.id c = i) clients in
  if truthy_status status && negb (includes validStatuses status) then
    send_and_return sent0 [] (Response 400 (Message invalidStatus))
  else
    match client with
    | None =>
        (* [client.status] on [undefined] *)
        Outcome sent0 [] ThrewTypeError
    | Some (t, client) =>
        let '(h, updatedClients) := reorder clients t client status priority in
        send_and_return sent0 (updates h updatedClients)
          (Response 200 (Clients h))
    end.

(** ** Scenarios *)

Definition mk (i : Z) (n : string) (s : string) (p : Z) : Client.t :=
  Client.Make i n EmptyString (Some s) (inject_Z p).

(** Lane backlog holds A(1), B(2), C(3). *)
Definition scenarioA : list Client.t :=
  [mk 1 "A" "backlog" 1; mk 2 "B" "backlog" 2; mk 3 "C" "backlog" 3].

(** Lane backlog holds A(1), B(2); lane in-progress holds X(1). *)
Definition scenarioB : list Client.t :=
  [mk 1 "A" "backlog" 1; mk 2 "B" "backlog" 2; mk 3 "X" "in-progress" 1].

(** ** Notions used to state the properties *)

#[local] Instance Qle_decision (x y : Q) : Decision (x <= y)%Q.
Proof.
  destruct (Qlt_le_dec y x) as [Hlt|Hle]; [right|left; exact Hle].
  by apply Qlt_not_le.
Defined.

#[local] Instance Qlt_decision (x y : Q) : Decision (x < y)%Q.
Proof.
  destruct (Qlt_le_dec x y) as [Hlt|Hle]; [left; exact Hlt|right].
  by apply Qle_not_lt.
Defined.

(** The order the comparator induces on references. *)
Definition key_le (h : heap) (a b : ref) : Prop :=
  (priority_of h a <= priority_of h b)%Q.

(** [a] comes before [b] in the array [l]. *)
Definition precedes (l : list ref) (a b : ref) : Prop :=
  ∃ i j, (i < j)%nat ∧ l !! i = Some a ∧ l !! j = Some b.

(** The members of a lane: the references to the objects with status [s],
    in the order of the array. *)
Definition lane (h : heap) (s : option string) : list ref :=
  filter (λ r, status_of h r = s) (seq 0 (length h)).

(** The priorities 1, 2, ..., n. *)
Definition ranks (n : nat) : list Q := (λ k, inject_Z (Z.of_nat k)) <$> seq 1 n.

(** A lane is densely numbered: the priorities of its members are
    1, 2, ..., n in some order. *)
Definition dense_lane (h : heap) (s : option string) : Prop :=
  priority_of h <$> lane h s ≡ₚ ranks (length (lane h s)).

(** The rank the target gets before the new lane is sorted (line 183). *)
Definition target_rank (priority : option Z) : Q :=
  if truthy_priority priority then minus_half priority
  else inject_Z MAX_SAFE_INTEGER.

(** A change of lane of the target [t], the object [client] of the array
    [clients]: the old lane without the target and the new lane, as read
    from the table, the array once the target is assigned its new status
    and rank, the two arrays as the handler sorts them, and the array the
    handler sends. *)
Definition old_members (clients : heap) (t : ref) (client : Client.t)
    : list ref :=
  filter (λ r, r ≠ t) (lane clients (Client.status client)).

Definition new_members (clients : heap) (status : option string) : list ref :=
  lane clients status.

Definition moved (clients : heap) (t : ref) (status : option string)
    (priority : option Z) : heap :=
  alter (Client.set_priority (target_rank priority)) t
    (alter (Client.set_status status) t clients).

Definition old_sorted (clients : heap) (t : ref) (client : Client.t)
    : list ref :=
  sort clients (old_members clients t client).

Definition new_sorted (clients : heap) (t : ref) (status : option string)
    (priority : option Z) : list ref :=
  sort (moved clients t status priority) (new_members clients status ++ [t]).

Definition changed (clients : heap) (t : ref) (client : Client.t)
    (status : option string) (priority : option Z) : heap :=
  (reorder clients t client status priority).1.

(** The members of the new lane that end up before the target, and the
    members that end up after it, each in sorted order. *)
Definition before_target (clients : heap) (status : option string)
    (priority : option Z) : list ref :=
  filter (λ y, priority_of clients y <= target_rank priority)%Q
    (sort clients (new_members clients status)).

Definition after_target (clients : heap) (status : option string)
    (priority : option Z) : list ref :=
  filter (λ y, target_rank priority < priority_of clients y)%Q
    (sort clients (new_members clients status)).

(** [a] is ahead of [b]: by priority, and between equal priorities by the
    order of the array (the order in which the sort receives them). *)
Definition ahead (h : heap) (a b : ref) : Prop :=
  (priority_of h a < priority_of h b)%Q
  ∨ ((priority_of h a == priority_of h b)%Q ∧ (a < b)%nat).

(** The members of [l] that were ahead of one another still are. *)
Definition keeps_order (before after : heap) (l : list ref) : Prop :=
  ∀ a b, a ∈ l → b ∈ l → ahead before a b →
    (priority_of after a < priority_of after b)%Q.

(** ** Tables and results of the scenarios *)

(** A table on which the general properties are instantiated: lane in-progress
    holds X(1), Y(2); lane backlog holds A(1); lane complete holds D(1). *)
Definition board : list Client.t :=
  [mk 1 "A" "backlog" 1; mk 2 "X" "in-progress" 1; mk 3 "Y" "in-progress" 2;
   mk 4 "D" "complete" 1].

Definition board_A_to_in_progress_3 : list Client.t :=
  [mk 1 "A" "in-progress" 3; mk 2 "X" "in-progress" 1;
   mk 3 "Y" "in-progress" 2; mk 4 "D" "complete" 1].

(** Scenario B, after A moved to in-progress without a priority. *)
Definition scenarioB_appended : list Client.t :=
  [mk 1 "A" "in-progress" 2; mk 2 "B" "backlog" 1; mk 3 "X" "in-progress" 1].

(** Scenario C, after A moved to in-progress with priority 1. *)
Definition scenarioC_inserted : list Client.t :=
  [mk 1 "A" "in-progress" 1; mk 2 "B" "backlog" 1; mk 3 "X" "in-progress" 2].

(** A destination lane whose member holds a priority above
    [Number.MAX_SAFE_INTEGER]. *)
Definition beyond_safe : list Client.t :=
  [mk 1 "A" "backlog" 1; mk 2 "X" "in-progress" 9007199254740992].

Definition beyond_safe_moved : list Client.t :=
  [mk 1 "A" "in-progress" 1; mk 2 "X" "in-progress" 2].

(** A destination lane whose member holds the priority 2^52 + 2, and the
    table after A is moved to that lane with that priority. *)
Definition beyond_exact : list Client.t :=
  [mk 1 "A" "backlog" 1; mk 2 "X" "in-progress" 4503599627370498].

Definition beyond_exact_moved : list Client.t :=
  [mk 1 "A" "in-progress" 2; mk 2 "X" "in-progress" 1].

(** A destination lane that is not densely numbered, and the table after A
    is moved to that lane with priority 5. *)
Definition sparse_lane : list Client.t :=
  [mk 1 "A" "backlog" 1; mk 2 "X" "in-progress" 100].

Definition sparse_lane_moved : list Client.t :=
  [mk 1 "A" "in-progress" 1; mk 2 "X" "in-progress" 2].

(** The client A of scenario B with the empty string as status. *)
Definition scenarioB_empty_status : list Client.t :=
  [Client.Make 1 "A" EmptyString (Some EmptyString) 1;
   mk 2 "B" "backlog" 1; mk 3 "X" "in-progress" 1].

(** Scenario B after a request that carries neither status nor priority. *)
Definition scenarioB_no_fields : list Client.t :=
  [Client.Make 1 "A" EmptyString None 1;
   mk 2 "B" "backlog" 1; mk 3 "X" "in-progress" 1].

(** Scenario A after C is moved to priority 1 within backlog. *)
Definition scenarioA_moved : list Client.t :=
  [mk 1 "A" "backlog" 1; mk 2 "B" "backlog" 2; mk 3 "C" "backlog" 1].

(** The result the specification gives for that move: C=1, A=2, B=3. *)
Definition scenarioA_expected : list Client.t :=
  [mk 1 "A" "backlog" 2; mk 2 "B" "backlog" 3; mk 3 "C" "backlog" 1].

(** ** The listing handlers (lines 76-114) *)

(** The message of [GET /api/v1/clients] for a status that is none of the
    three (lines 85-89). *)
Definition invalidStatusQuery : messageObj :=
  MessageObj "Invalid status provided."
    "Status can only be one of the following: [backlog | in-progress | complete].".

(** [select * from clients where status = ?] *)
Definition db_with_status (db : list Client.t) (s : string) : list Client.t :=
  filter (λ c, Client.status c = Some s) db.

(** [GET /api/v1/clients?status={status}] (lines 76-99); [status] is
    [req.query.status], [None] when the query has no such field.  Every
    path returns the one response it sends. *)
Definition get_clients (db : list Client.t) (status : option string)
    : response :=
  if truthy_status status then
    match status with
    | Some s =>
        if negb (bool_decide (s = "backlog"%string))
           && negb (bool_decide (s = "in-progress"%string))
           && negb (bool_decide (s = "complete"%string))
        then Response 400 (Message invalidStatusQuery)
        else Response 200 (Clients (db_with_status db s))
    | None => Response 200 (Clients db)
    end
  else Response 200 (Clients db).

(** What [GET /api/v1/clients/:id] sends: a message, or the value of
    [db.prepare(...).get(id)], which is [undefined] ([None]) when no row has
    the id. *)
Inductive item_payload :=
| ItemMessage (m : messageObj)
| Item (c : option Client.t).

Record item_response := ItemResponse { item_code : Z; item_body : item_payload }.

(** [GET /api/v1/clients/:id] (lines 105-114): the calls of
    [res.status(code).send(body)], in order.  As in the update handler the
    response for an invalid id is sent and the handler goes on. *)
Definition get_client (db : list Client.t) (id : option Z)
    : list item_response :=
  let v := validateId db id in
  let sent0 :=
    if valid v then []
    else from_option (λ m, [ItemResponse 400 (ItemMessage m)]) []
           (v_message v) in
  sent0 ++ [ItemResponse 200 (Item (id ≫= db_get db))].

(** ** Further notions *)

(** The fields of a client that no handler assigns. *)
Definition identity (c : Client.t) : Z * string * string :=
  (Client.id c, Client.name c, Client.description c).

(** The arguments [updateStmt.run] gets for the object [c]. *)
Definition row_of (c : Client.t) : run :=
  Run (Client.status c) (Client.priority c) (Client.id c).

(** The strict order of priorities, or the same priority. *)
Definition rank_le (x y : Q) : Prop := (x < y)%Q ∨ x = y.

(** A table that a JavaScript array holds: fewer than 2^32 rows. *)
Definition fits_array (db : list Client.t) : Prop :=
  Z.of_nat (length db) < 4294967296.

(** The rank a member with the integer priority [q] has after a client is
    inserted at priority [p] in its lane. *)
Definition shifted (p q : Z) : Z := if q <? p then q else q + 1.

(** * Properties *)

(** ** Objects reached through references *)

Section heap_facts.
Implicit Types (h : heap) (r t : ref) (c : Client.t).

Lemma status_of_set_priority h t p r :
  status_of (alter (Client.set_priority p) t h) r = status_of h r.
Proof.
  unfold status_of. destruct (decide (t = r)) as [->|Hne].
  - rewrite list_lookup_alter_eq. by destruct (h !! r).
  - by rewrite list_lookup_alter_ne.
Qed.

Lemma id_of_set_priority h t p r :
  id_of (alter (Client.set_priority p) t h) r = id_of h r.
Proof.
  unfold id_of. destruct (decide (t = r)) as [->|Hne].
  - rewrite list_lookup_alter_eq. by destruct (h !! r).
  - by rewrite list_lookup_alter_ne.
Qed.

Lemma id_of_set_status h t s r :
  id_of (alter (Client.set_status s) t h) r = id_of h r.
Proof.
  unfold id_of. destruct (decide (t = r)) as [->|Hne].
  - rewrite list_lookup_alter_eq. by destruct (h !! r).
  - by rewrite list_lookup_alter_ne.
Qed.

Lemma priority_of_set_priority_ne h t p r :
  t ≠ r → priority_of (alter (Client.set_priority p) t h) r = priority_of h r.
Proof. intros. unfold priority_of. by rewrite list_lookup_alter_ne. Qed.

Lemma priority_of_set_priority_eq h t p :
  (t < length h)%nat →
  priority_of (alter (Client.set_priority p) t h) t = p.
Proof.
  intros Hlt. unfold priority_of. rewrite list_lookup_alter_eq.
  destruct (lookup_lt_is_Some_2 h t Hlt) as [c ->]. done.
Qed.

Lemma priority_of_set_status h t s r :
  priority_of (alter (Client.set_status s) t h) r = priority_of h r.
Proof.
  unfold priority_of. destruct (decide (t = r)) as [->|Hne].
  - rewrite list_lookup_alter_eq. by destruct (h !! r).
  - by rewrite list_lookup_alter_ne.
Qed.

Lemma status_of_set_status_ne h t s r :
  t ≠ r → status_of (alter (Client.set_status s) t h) r = status_of h r.
Proof. intros. unfold status_of. by rewrite list_lookup_alter_ne. Qed.

Lemma status_of_set_status_eq h t s :
  (t < length h)%nat →
  status_of (alter (Client.set_status s) t h) t = s.
Proof.
  intros Hlt. unfold status_of. rewrite list_lookup_alter_eq.
  destruct (lookup_lt_is_Some_2 h t Hlt) as [c ->]. done.
Qed.

(** Renumbering an array of references *)

Lemma renumber_from_length l : ∀ i h,
  length (renumber_from i l h) = length h.
Proof.
  induction l as [|r l IH]; intros i h; simpl; [done|].
  by rewrite IH, length_alter.
Qed.

Lemma renumber_from_status l : ∀ i h r,
  status_of (renumber_from i l h) r = status_of h r.
Proof.
  induction l as [|x l IH]; intros i h r; simpl; [done|].
  by rewrite IH, status_of_set_priority.
Qed.

Lemma renumber_from_id l : ∀ i h r,
  id_of (renumber_from i l h) r = id_of h r.
Proof.
  induction l as [|x l IH]; intros i h r; simpl; [done|].
  by rewrite IH, id_of_set_priority.
Qed.

Lemma renumber_from_notin l : ∀ i h r,
  r ∉ l → renumber_from i l h !! r = h !! r.
Proof.
  induction l as [|x l IH]; intros i h r Hnotin; simpl; [done|].
  apply not_elem_of_cons in Hnotin as [Hne Hnotin].
  rewrite IH by done. by rewrite list_lookup_alter_ne.
Qed.

(** The object at position [k] of the array gets priority [index + k + 1]. *)
Lemma renumber_from_priority l : ∀ i h k r,
  NoDup l → l !! k = Some r → (r < length h)%nat →
  priority_of (renumber_from i l h) r = inject_Z (Z.of_nat (i + k) + 1).
Proof.
  induction l as [|x l IH]; intros i h k r Hnd Hk Hlt; [done|].
  apply NoDup_cons in Hnd as [Hx Hnd]. simpl.
  destruct k as [|k]; simpl in Hk.
  - injection Hk as ->. unfold priority_of.
    rewrite renumber_from_notin by done.
    fold (priority_of (alter (Client.set_priority (inject_Z (Z.of_nat i + 1))) r h) r).
    rewrite priority_of_set_priority_eq by done.
    by rewrite Nat.add_0_r.
  - rewrite (IH (S i) _ k r) by (by rewrite ?length_alter).
    do 2 f_equal. lia.
Qed.

Lemma renumber_priority l h k r :
  NoDup l → l !! k = Some r → (r < length h)%nat →
  priority_of (renumber l h) r = inject_Z (Z.of_nat k + 1).
Proof. intros. unfold renumber. by rewrite (renumber_from_priority l 0 h k r). Qed.

Lemma renumber_priority_notin l h r :
  r ∉ l → priority_of (renumber l h) r = priority_of h r.
Proof.
  intros. unfold priority_of, renumber. by rewrite renumber_from_notin.
Qed.
End heap_facts.

(** ** The stable sort by priority *)

Section sort_facts.
Variable h : heap.
Abbreviation key := (priority_of h).

Lemma compare_priority_le x y :
  Qle_bool (compare_priority h x y) 0 = true ↔ (key x <= key y)%Q.
Proof.
  rewrite Qle_bool_iff. unfold compare_priority. split; intros; lra.
Qed.

Lemma compare_priority_gt x y :
  Qle_bool (compare_priority h x y) 0 = false ↔ (key y < key x)%Q.
Proof.
  rewrite <- not_true_iff_false, compare_priority_le. split.
  - apply Qnot_le_lt.
  - apply Qlt_not_le.
Qed.

Lemma sort_insert_perm x l : sort_insert h x l ≡ₚ x :: l.
Proof.
  induction l as [|y l IH]; simpl; [done|].
  destruct (Qle_bool _ _); [done|].
  rewrite IH. apply Permutation_swap.
Qed.

Lemma sort_perm l : sort h l ≡ₚ l.
Proof.
  induction l as [|x l IH]; simpl; [done|].
  by rewrite sort_insert_perm, IH.
Qed.

Lemma sort_length l : length (sort h l) = length l.
Proof. by rewrite sort_perm. Qed.

Lemma sort_elem_of l r : r ∈ sort h l ↔ r ∈ l.
Proof. by rewrite sort_perm. Qed.

Lemma sort_NoDup l : NoDup l → NoDup (sort h l).
Proof. by rewrite sort_perm. Qed.

Lemma sort_insert_sorted x l :
  StronglySorted (key_le h) l → StronglySorted (key_le h) (sort_insert h x l).
Proof.
  induction 1 as [|y l Hl IH Hy]; simpl.
  - repeat constructor.
  - destruct (Qle_bool _ _) eqn:Hc.
    + apply compare_priority_le in Hc.
      constructor; [by constructor|].
      constructor; [done|].
      eapply Forall_impl; [exact Hy|].
      unfold key_le. intros z Hz. lra.
    + apply compare_priority_gt in Hc.
      constructor; [done|].
      rewrite sort_insert_perm. constructor; [|done].
      unfold key_le. lra.
Qed.

Lemma sort_sorted l : StronglySorted (key_le h) (sort h l).
Proof.
  induction l as [|x l IH]; simpl; [constructor|].
  by apply sort_insert_sorted.
Qed.

(** Nothing in [l] is below [x]: [x] goes first. *)
Lemma sort_insert_first x l :
  Forall (λ y, key x <= key y)%Q l → sort_insert h x l = x :: l.
Proof.
  destruct 1 as [|y l Hy Hl]; simpl; [done|].
  apply compare_priority_le in Hy. by rewrite Hy.
Qed.

(** Everything in [s] is below [x]: [x] goes past [s]. *)
Lemma sort_insert_app_gt x s u :
  Forall (λ y, key y < key x)%Q s →
  sort_insert h x (s ++ u) = s ++ sort_insert h x u.
Proof.
  induction 1 as [|y s Hy Hs IH]; simpl; [done|].
  apply compare_priority_gt in Hy. by rewrite Hy, IH.
Qed.

Lemma sort_insert_app_le x s y u :
  (key x <= key y)%Q →
  sort_insert h x (s ++ y :: u) = sort_insert h x s ++ y :: u.
Proof.
  intros Hxy. induction s as [|z s IH]; simpl.
  - apply compare_priority_le in Hxy. by rewrite Hxy.
  - destruct (Qle_bool _ _); [done|]. by rewrite IH.
Qed.

(** Filtering a sorted array commutes with insertion. *)
Lemma filter_sort_insert (P : ref → Prop) `{!∀ r, Decision (P r)} x l :
  StronglySorted (key_le h) l →
  filter P (sort_insert h x l)
  = if decide (P x) then sort_insert h x (filter P l) else filter P l.
Proof.
  induction 1 as [|y l Hl IH Hy]; simpl.
  - rewrite filter_cons, filter_nil. by destruct (decide (P x)).
  - destruct (Qle_bool _ _) eqn:Hc.
    + apply compare_priority_le in Hc.
      rewrite (filter_cons _ x). destruct (decide (P x)); [|done].
      rewrite sort_insert_first; [done|].
      apply Forall_forall. intros z Hz.
      apply list_elem_of_filter in Hz as [_ Hz].
      apply elem_of_cons in Hz as [->|Hz]; [done|].
      rewrite Forall_forall in Hy. specialize (Hy z Hz).
      unfold key_le in Hy. lra.
    + rewrite (filter_cons _ y), IH, (filter_cons _ y).
      destruct (decide (P x)), (decide (P y)); simpl; by rewrite ?Hc.
Qed.

(** Sorting an array whose last element is [t]: the rest is sorted, and
    [t] goes after the elements that are not above it. *)
Lemma sort_snoc l t :
  sort h (l ++ [t])
  = filter (λ y, key y <= key t)%Q (sort h l)
    ++ t :: filter (λ y, key t < key y)%Q (sort h l).
Proof.
  induction l as [|x l IH]; simpl; [done|].
  rewrite IH. pose proof (sort_sorted l) as Hs.
  rewrite !filter_sort_insert by done.
  destruct (decide (key x <= key t)%Q) as [Hle|Hgt].
  - rewrite decide_False by lra.
    by rewrite sort_insert_app_le.
  - apply Qnot_le_lt in Hgt. rewrite decide_True by done.
    rewrite !(cons_middle t), !app_assoc.
    rewrite sort_insert_app_gt; [done|].
    apply Forall_app. split; [|by repeat constructor].
    apply Forall_forall. intros z Hz.
    apply list_elem_of_filter in Hz as [Hz _]. lra.
Qed.

Lemma sort_snoc_last l t :
  Forall (λ y, key y <= key t)%Q l → sort h (l ++ [t]) = sort h l ++ [t].
Proof.
  intros Hall. rewrite sort_snoc.
  assert (Forall (λ y, key y <= key t)%Q (sort h l)) as Hall'.
  { by rewrite sort_perm. }
  f_equal.
  - clear -Hall'. induction Hall' as [|y s Hy Hs IH]; [done|].
    by rewrite filter_cons, decide_True, IH.
  - f_equal. clear -Hall'. induction Hall' as [|y s Hy Hs IH]; [done|].
    rewrite filter_cons, decide_False, IH; [done|lra].
Qed.

(** In a sorted array without repetition a strictly smaller priority
    means an earlier position. *)
Lemma sorted_lt_position l i j a b :
  StronglySorted (key_le h) l → l !! i = Some a → l !! j = Some b →
  (key a < key b)%Q → (i < j)%nat.
Proof.
  intros Hs. revert i j.
  induction Hs as [|y l Hl IH Hy]; intros i j Hi Hj Hlt; [done|].
  destruct i as [|i], j as [|j]; simpl in *.
  - simplify_eq. lra.
  - lia.
  - simplify_eq. rewrite Forall_forall in Hy.
    assert (a ∈ l) as Ha by (by eapply list_elem_of_lookup_2).
    specialize (Hy a Ha). unfold key_le in Hy. lra.
  - specialize (IH i j Hi Hj Hlt). lia.
Qed.
End sort_facts.

(** *** Stability *)

Lemma precedes_cons_head (l : list ref) a b : b ∈ l → precedes (a :: l) a b.
Proof.
  intros [j Hj]%list_elem_of_lookup. exists 0%nat, (S j).
  split; [lia|done].
Qed.

Lemma precedes_cons_tail (l : list ref) x a b :
  precedes l a b → precedes (x :: l) a b.
Proof.
  intros (i & j & Hij & Hi & Hj). exists (S i), (S j).
  split; [lia|done].
Qed.

Lemma precedes_cons_inv (l : list ref) x a b :
  precedes (x :: l) a b → (a = x ∧ b ∈ l) ∨ precedes l a b.
Proof.
  intros (i & j & Hij & Hi & Hj).
  destruct j as [|j]; [lia|]. simpl in Hj.
  destruct i as [|i]; simpl in Hi.
  - left. split; [congruence|]. by eapply list_elem_of_lookup_2.
  - right. exists i, j. split; [lia|done].
Qed.

(** In an array of references taken in the order of the heap, the smaller
    reference comes first. *)
Lemma precedes_filter_seq (P : ref → Prop) `{!∀ r, Decision (P r)} n : ∀ j a b,
  a ∈ filter P (seq j n) → b ∈ filter P (seq j n) → (a < b)%nat →
  precedes (filter P (seq j n)) a b.
Proof.
  induction n as [|n IH]; intros j a b Ha Hb Hlt; simpl in *.
  { by apply elem_of_nil in Ha. }
  rewrite filter_cons in *.
  assert (∀ r, r ∈ filter P (seq (S j) n) → (j < r)%nat) as Hgt.
  { intros r [_ Hr]%list_elem_of_filter. apply elem_of_seq in Hr. lia. }
  destruct (decide (P j)); [|by apply IH].
  apply elem_of_cons in Ha as [->|Ha].
  - apply precedes_cons_head. apply elem_of_cons in Hb as [->|Hb]; [lia|done].
  - apply precedes_cons_tail, IH; [done| |done].
    apply elem_of_cons in Hb as [->|Hb]; [|done].
    specialize (Hgt a Ha). lia.
Qed.

Section stability.
Variable h : heap.
Abbreviation key := (priority_of h).

Lemma sort_insert_precedes_old x s a b :
  precedes s a b → precedes (sort_insert h x s) a b.
Proof.
  induction s as [|y s IH]; intros Hab; simpl.
  { destruct Hab as (i & j & _ & Hi & _). done. }
  destruct (Qle_bool _ _); [by apply precedes_cons_tail|].
  apply precedes_cons_inv in Hab as [[-> Hb]|Hab].
  - apply precedes_cons_head. rewrite sort_insert_perm. by right.
  - by apply precedes_cons_tail, IH.
Qed.

Lemma sort_insert_precedes_new x s b :
  b ∈ s → (key x <= key b)%Q → precedes (sort_insert h x s) x b.
Proof.
  induction s as [|y s IH]; intros Hb Hle; simpl.
  { by apply elem_of_nil in Hb. }
  destruct (Qle_bool _ _) eqn:Hc; [by apply precedes_cons_head|].
  apply compare_priority_gt in Hc.
  apply elem_of_cons in Hb as [->|Hb]; [lra|].
  by apply precedes_cons_tail, IH.
Qed.

(** The sort is stable: of two references with priorities in order, the
    one that came first stays first. *)
Lemma sort_stable l a b :
  precedes l a b → (key a <= key b)%Q → precedes (sort h l) a b.
Proof.
  induction l as [|x l IH]; intros Hab Hle; simpl.
  { destruct Hab as (i & j & _ & Hi & _). done. }
  apply precedes_cons_inv in Hab as [[-> Hb]|Hab].
  - apply sort_insert_precedes_new; [|done]. by apply sort_elem_of.
  - by apply sort_insert_precedes_old, IH.
Qed.
End stability.

(** The sort reads the priorities of the sorted references only. *)
Lemma sort_insert_ext h h' x l :
  (∀ r, r ∈ x :: l → priority_of h r = priority_of h' r) →
  sort_insert h x l = sort_insert h' x l.
Proof.
  induction l as [|y l IH]; intros Heq; simpl; [done|].
  unfold compare_priority.
  rewrite (Heq x), (Heq y) by (rewrite !elem_of_cons; auto).
  rewrite IH; [done|]. intros r Hr. apply Heq.
  rewrite !elem_of_cons in *. tauto.
Qed.

Lemma sort_ext h h' l :
  (∀ r, r ∈ l → priority_of h r = priority_of h' r) → sort h l = sort h' l.
Proof.
  induction l as [|x l IH]; intros Heq; simpl; [done|].
  rewrite IH by (intros; apply Heq; by right).
  apply sort_insert_ext. intros r Hr. apply Heq.
  apply elem_of_cons in Hr as [->|Hr]; [by left|].
  apply sort_elem_of in Hr. by right.
Qed.

(** ** Lanes *)

Lemma elem_of_lane h s r : r ∈ lane h s ↔ (r < length h)%nat ∧ status_of h r = s.
Proof.
  unfold lane. rewrite list_elem_of_filter, elem_of_seq. intuition lia.
Qed.

Lemma lane_NoDup h s : NoDup (lane h s).
Proof. apply NoDup_filter, NoDup_seq. Qed.

Lemma lane_lt h s r : r ∈ lane h s → (r < length h)%nat.
Proof. rewrite elem_of_lane. tauto. Qed.

Lemma group_step_foldl h o n l : ∀ olds news,
  foldl (group_step h o n) (olds, news) l
  = (olds ++ filter (λ r, status_of h r = o) l,
     news ++ filter (λ r, status_of h r ≠ o ∧ status_of h r = n) l).
Proof.
  induction l as [|r l IH]; intros olds news; simpl.
  - by rewrite !filter_nil, !app_nil_r.
  - unfold group_step at 2. simpl. rewrite !filter_cons.
    destruct (decide (status_of h r = o)) as [Ho|Ho].
    + rewrite IH, decide_False by tauto. by rewrite <- app_assoc.
    + destruct (decide (status_of h r = n)) as [Hn|Hn].
      * rewrite IH, decide_True by tauto. by rewrite <- app_assoc.
      * rewrite IH, decide_False by tauto. done.
Qed.

Lemma group_same h o : group h o o = (lane h o, []).
Proof.
  unfold group. rewrite group_step_foldl. simpl. f_equal.
  induction (seq 0 (length h)) as [|r l IH]; [done|].
  rewrite filter_cons, decide_False by tauto. done.
Qed.

Lemma group_diff h o n : o ≠ n → group h o n = (lane h o, lane h n).
Proof.
  intros Hne. unfold group. rewrite group_step_foldl. simpl. f_equal.
  unfold lane. apply list_filter_iff. intros r. split; [tauto|].
  intros Hn. split; [congruence|done].
Qed.

(** ** The three paths of the reordering *)

Section reorder_paths.
Variables (clients : heap) (t : ref) (client : Client.t).
Variables (status : option string) (priority : option Z).

Lemma reorder_noop :
  Client.status client = status →
  shouldReorderPriority (Client.priority client) priority = false →
  (reorder clients t client status priority).1 = clients.
Proof.
  intros Hs Hp. unfold reorder.
  destruct (group _ _ _) as [olds news].
  rewrite Hp, andb_false_r, bool_decide_true by done. done.
Qed.

(** Case 1 renumbers an array that holds the target alone. *)
Lemma reorder_same_lane :
  Client.status client = status →
  shouldReorderPriority (Client.priority client) priority = true →
  (reorder clients t client status priority).1
  = alter (Client.set_priority 1) t
      (alter (Client.set_priority (minus_half priority)) t clients).
Proof.
  intros Hs Hp. unfold reorder. rewrite Hs, group_same.
  rewrite Hp, bool_decide_true by done. done.
Qed.

Lemma reorder_lane_change :
  Client.status client ≠ status →
  (reorder clients t client status priority).1
  = let h :=
      alter (Client.set_priority (target_rank priority)) t
        (alter (Client.set_status status) t clients) in
    let olds :=
      sort h (filter (λ r, id_of h r ≠ id_of h t)
                (lane clients (Client.status client))) in
    let h := renumber olds h in
    renumber (sort h (lane clients status ++ [t])) h.
Proof.
  intros Hs. unfold reorder. rewrite group_diff by done.
  rewrite bool_decide_false by done. done.
Qed.
End reorder_paths.

(** Objects that share no field but the ones compared are the same array
    of ids. *)
Lemma ids_eq (h h' : heap) :
  length h = length h' → (∀ r, id_of h r = id_of h' r) →
  Client.id <$> h = Client.id <$> h'.
Proof.
  intros Hlen Hid. apply list_eq. intros r.
  rewrite !list_lookup_fmap. apply Hid.
Qed.

Lemma filter_ext_in {A} (P1 P2 : A → Prop)
    `{!∀ x, Decision (P1 x), !∀ x, Decision (P2 x)} (l : list A) :
  Forall (λ x, P1 x ↔ P2 x) l → filter P1 l = filter P2 l.
Proof.
  induction 1 as [|x l Hx Hl IH]; [done|].
  rewrite !filter_cons, IH.
  destruct (decide (P1 x)), (decide (P2 x)); tauto.
Qed.

Lemma priority_of_ranks (h : heap) (l : list ref) :
  (∀ k r, l !! k = Some r → priority_of h r = inject_Z (Z.of_nat k + 1)) →
  priority_of h <$> l = ranks (length l).
Proof.
  intros Hl. apply list_eq. intros k. unfold ranks.
  rewrite !list_lookup_fmap.
  destruct (l !! k) as [r|] eqn:Hk; simpl.
  - rewrite lookup_seq_lt by (by eapply lookup_lt_Some). simpl.
    rewrite (Hl k r Hk). do 2 f_equal. lia.
  - rewrite lookup_seq_ge; [done|]. by apply lookup_ge_None.
Qed.

(** *** A change of lane (case 2) *)

Section lane_change.
Variables (clients : heap) (t : ref) (client : Client.t).
Variables (status : option string) (priority : option Z).
Hypothesis Ht : clients !! t = Some client.
Hypothesis Hs : Client.status client ≠ status.

Abbreviation olds := (old_members clients t client).
Abbreviation news := (new_members clients status).
Abbreviation olds' := (old_sorted clients t client).
Abbreviation news' := (new_sorted clients t status priority).
Abbreviation h2 := (moved clients t status priority).
Abbreviation cs := (changed clients t client status priority).

Lemma target_lt : (t < length clients)%nat.
Proof. by eapply lookup_lt_Some. Qed.

Lemma target_status : status_of clients t = Client.status client.
Proof. unfold status_of. by rewrite Ht. Qed.

Lemma target_notin_new : t ∉ news.
Proof.
  unfold new_members. rewrite elem_of_lane, target_status. tauto.
Qed.

Lemma target_notin_old : t ∉ olds.
Proof. unfold old_members. rewrite list_elem_of_filter. tauto. Qed.

Lemma old_new_disjoint r : r ∈ olds → r ∉ news.
Proof.
  unfold old_members, new_members.
  rewrite list_elem_of_filter, !elem_of_lane. intros (_ & _ & Ho) [_ Hn].
  congruence.
Qed.

Lemma old_members_NoDup : NoDup olds.
Proof. apply NoDup_filter, lane_NoDup. Qed.

Lemma new_with_target_NoDup : NoDup (news ++ [t]).
Proof.
  apply NoDup_app. split; [apply lane_NoDup|]. split.
  - intros r Hr Hin. apply list_elem_of_singleton in Hin as ->.
    by apply target_notin_new.
  - apply NoDup_singleton.
Qed.

Lemma moved_length : length h2 = length clients.
Proof. unfold moved. by rewrite !length_alter. Qed.

Lemma moved_priority_ne r : r ≠ t → priority_of h2 r = priority_of clients r.
Proof.
  intros Hne. unfold moved.
  rewrite priority_of_set_priority_ne by done.
  apply priority_of_set_status.
Qed.

Lemma moved_priority_target : priority_of h2 t = target_rank priority.
Proof.
  unfold moved. apply priority_of_set_priority_eq.
  rewrite length_alter. apply target_lt.
Qed.

Lemma moved_status r :
  status_of h2 r = if decide (r = t) then status else status_of clients r.
Proof.
  unfold moved. rewrite status_of_set_priority.
  destruct (decide (r = t)) as [->|Hne].
  - apply status_of_set_status_eq, target_lt.
  - by apply status_of_set_status_ne.
Qed.

Lemma moved_id r : id_of h2 r = id_of clients r.
Proof. unfold moved. by rewrite id_of_set_priority, id_of_set_status. Qed.

(** With unique ids, [c.id !== client.id] removes the target only. *)
Lemma filter_by_id :
  NoDup (Client.id <$> clients) →
  filter (λ r, id_of h2 r ≠ id_of h2 t)
    (lane clients (Client.status client))
  = olds.
Proof.
  intros Hnd. unfold old_members. apply filter_ext_in.
  apply Forall_forall. intros r Hr%lane_lt.
  rewrite !moved_id. unfold id_of.
  destruct (lookup_lt_is_Some_2 clients r Hr) as [c Hc].
  rewrite Hc, Ht. simpl. split.
  - intros Hne ->. simplify_eq.
  - intros Hne Heq. apply Hne. injection Heq as Heq.
    eapply (NoDup_lookup (Client.id <$> clients)); [done|..].
    + rewrite list_lookup_fmap, Hc. reflexivity.
    + rewrite list_lookup_fmap, Ht. simpl. by rewrite Heq.
Qed.

Lemma sort_old_moved : sort h2 olds = olds'.
Proof.
  apply sort_ext. intros r Hr. apply moved_priority_ne.
  intros ->. by apply target_notin_old.
Qed.

Lemma renumber_old_priority r :
  r ∉ olds →
  priority_of (renumber olds' h2) r = priority_of h2 r.
Proof.
  intros Hr. apply renumber_priority_notin.
  unfold old_sorted. by rewrite sort_elem_of.
Qed.

Lemma sort_new_renumbered :
  sort (renumber olds' h2) (news ++ [t]) = news'.
Proof.
  apply sort_ext. intros r Hr. apply renumber_old_priority.
  apply elem_of_app in Hr as [Hr|Hr].
  - intros Ho. by apply (old_new_disjoint r).
  - apply list_elem_of_singleton in Hr as ->. apply target_notin_old.
Qed.

Lemma changed_eq :
  NoDup (Client.id <$> clients) →
  cs = renumber news' (renumber olds' h2).
Proof.
  intros Hnd. unfold changed. rewrite reorder_lane_change by done.
  cbv zeta. fold (target_rank priority). fold h2.
  rewrite filter_by_id by done.
  rewrite sort_old_moved. fold news.
  by rewrite sort_new_renumbered.
Qed.
End lane_change.

Section lane_change_result.
Variables (clients : heap) (t : ref) (client : Client.t).
Variables (status : option string) (priority : option Z).
Hypothesis Ht : clients !! t = Some client.
Hypothesis Hs : Client.status client ≠ status.
Hypothesis Hids : NoDup (Client.id <$> clients).

Abbreviation olds := (old_members clients t client).
Abbreviation news := (new_members clients status).
Abbreviation olds' := (old_sorted clients t client).
Abbreviation news' := (new_sorted clients t status priority).
Abbreviation h2 := (moved clients t status priority).
Abbreviation cs := (changed clients t client status priority).

Lemma old_sorted_elem_of r : r ∈ olds' ↔ r ∈ olds.
Proof. unfold old_sorted. apply sort_elem_of. Qed.

Lemma new_sorted_elem_of r : r ∈ news' ↔ r ∈ news ∨ r = t.
Proof.
  unfold new_sorted.
  by rewrite sort_elem_of, elem_of_app, list_elem_of_singleton.
Qed.

Lemma changed_length : length cs = length clients.
Proof.
  rewrite changed_eq by done. unfold renumber.
  by rewrite !renumber_from_length, moved_length.
Qed.

Lemma changed_status r :
  status_of cs r = if decide (r = t) then status else status_of clients r.
Proof.
  rewrite changed_eq by done. unfold renumber.
  rewrite !renumber_from_status. by eapply moved_status.
Qed.

Lemma changed_id r : id_of cs r = id_of clients r.
Proof.
  rewrite changed_eq by done. unfold renumber.
  rewrite !renumber_from_id. apply moved_id.
Qed.

Lemma changed_ids : Client.id <$> cs = Client.id <$> clients.
Proof. apply ids_eq; [apply changed_length | apply changed_id]. Qed.

(** The objects outside both arrays are not written. *)
Lemma changed_frame r :
  r ∉ olds → r ∉ news → r ≠ t → cs !! r = clients !! r.
Proof.
  intros Ho Hn Hne. rewrite changed_eq by done. unfold renumber.
  rewrite renumber_from_notin.
  2:{ rewrite new_sorted_elem_of. tauto. }
  rewrite renumber_from_notin by (by rewrite old_sorted_elem_of).
  unfold moved. by rewrite !list_lookup_alter_ne.
Qed.

(** The old lane: position [k] of the sorted array gets priority [k + 1]. *)
Lemma changed_old k r :
  olds' !! k = Some r → priority_of cs r = inject_Z (Z.of_nat k + 1).
Proof.
  intros Hk.
  assert (r ∈ olds) as Hr.
  { apply old_sorted_elem_of. by eapply list_elem_of_lookup_2. }
  rewrite changed_eq by done.
  rewrite renumber_priority_notin.
  - apply renumber_priority; [|done|].
    + apply sort_NoDup, old_members_NoDup.
    + rewrite moved_length.
      apply list_elem_of_filter in Hr as [_ Hr]. by eapply lane_lt.
  - rewrite new_sorted_elem_of. intros [Hn| ->].
    + by apply (old_new_disjoint clients t client status Hs r).
    + by apply (target_notin_old clients t client).
Qed.

(** The new lane, likewise. *)
Lemma changed_new k r :
  news' !! k = Some r → priority_of cs r = inject_Z (Z.of_nat k + 1).
Proof.
  intros Hk.
  assert (r ∈ news ∨ r = t) as Hr.
  { apply new_sorted_elem_of. by eapply list_elem_of_lookup_2. }
  rewrite changed_eq by done.
  apply renumber_priority; [|done|].
  - by eapply sort_NoDup, new_with_target_NoDup.
  - unfold renumber. rewrite renumber_from_length, moved_length.
    destruct Hr as [Hr| ->]; [by eapply lane_lt|by eapply target_lt].
Qed.

Lemma dense_old : priority_of cs <$> olds ≡ₚ ranks (length olds).
Proof.
  rewrite <- (sort_perm clients olds) at 1.
  rewrite <- (sort_length clients olds).
  rewrite priority_of_ranks; [done|]. apply changed_old.
Qed.

Lemma dense_new :
  priority_of cs <$> (news ++ [t]) ≡ₚ ranks (S (length news)).
Proof.
  rewrite <- (sort_perm h2 (news ++ [t])) at 1.
  replace (S (length news)) with (length (sort h2 (news ++ [t]))).
  2:{ rewrite sort_length, length_app. simpl. lia. }
  rewrite priority_of_ranks; [done|]. apply changed_new.
Qed.

(** Members of the old lane keep their relative order. *)
Lemma order_old a b :
  a ∈ olds → b ∈ olds →
  (priority_of clients a < priority_of clients b)%Q →
  (priority_of cs a < priority_of cs b)%Q.
Proof.
  intros Ha Hb Hlt.
  apply old_sorted_elem_of, list_elem_of_lookup in Ha as [i Hi].
  apply old_sorted_elem_of, list_elem_of_lookup in Hb as [j Hj].
  rewrite (changed_old i a Hi), (changed_old j b Hj).
  rewrite <- Zlt_Qlt.
  pose proof (sorted_lt_position clients _ i j a b
                (sort_sorted clients olds) Hi Hj Hlt). lia.
Qed.

(** Members of the new lane keep their relative order. *)
Lemma order_new a b :
  a ∈ news → b ∈ news →
  (priority_of clients a < priority_of clients b)%Q →
  (priority_of cs a < priority_of cs b)%Q.
Proof.
  intros Ha Hb Hlt.
  assert (a ≠ t ∧ b ≠ t) as [Hat Hbt].
  { split; intros ->; by eapply target_notin_new. }
  assert (a ∈ news') as [i Hi]%list_elem_of_lookup
    by (apply new_sorted_elem_of; tauto).
  assert (b ∈ news') as [j Hj]%list_elem_of_lookup
    by (apply new_sorted_elem_of; tauto).
  rewrite (changed_new i a Hi), (changed_new j b Hj).
  rewrite <- Zlt_Qlt.
  enough (i < j)%nat by lia.
  apply (sorted_lt_position h2 news' i j a b); [apply sort_sorted|done..|].
  by rewrite !moved_priority_ne.
Qed.
End lane_change_result.

(** *** Where the target lands in the new lane *)

Lemma StronglySorted_filter {A} (R : relation A) (P : A → Prop)
    `{!∀ x, Decision (P x)} (l : list A) :
  StronglySorted R l → StronglySorted R (filter P l).
Proof.
  induction 1 as [|x l Hl IH Hx]; [constructor|].
  rewrite filter_cons. destruct (decide (P x)); [|done].
  constructor; [done|].
  apply Forall_forall. intros y [_ Hy]%list_elem_of_filter.
  rewrite Forall_forall in Hx. by apply Hx.
Qed.

Lemma filter_all {A} (P : A → Prop) `{!∀ x, Decision (P x)} (l : list A) :
  Forall P l → filter P l = l.
Proof.
  induction 1 as [|x l Hx Hl IH]; [done|].
  by rewrite filter_cons, decide_True, IH.
Qed.

Lemma filter_none {A} (P : A → Prop) `{!∀ x, Decision (P x)} (l : list A) :
  Forall (λ x, ¬ P x) l → filter P l = [].
Proof.
  induction 1 as [|x l Hx Hl IH]; [done|].
  by rewrite filter_cons, decide_False, IH.
Qed.

Section target_position.
Variables (clients : heap) (t : ref) (client : Client.t).
Variables (status : option string) (priority : option Z).
Hypothesis Ht : clients !! t = Some client.
Hypothesis Hs : Client.status client ≠ status.
Hypothesis Hids : NoDup (Client.id <$> clients).

Abbreviation news := (new_members clients status).
Abbreviation news' := (new_sorted clients t status priority).
Abbreviation h2 := (moved clients t status priority).
Abbreviation cs := (changed clients t client status priority).
Abbreviation kt := (target_rank priority).
Abbreviation front := (before_target clients status priority).
Abbreviation back := (after_target clients status priority).

Lemma new_sorted_split : news' = front ++ t :: back.
Proof.
  unfold new_sorted. rewrite sort_snoc.
  assert (sort h2 news = sort clients news) as ->.
  { apply sort_ext. intros r Hr. apply moved_priority_ne.
    intros ->. by eapply target_notin_new. }
  assert (Forall (λ y, priority_of h2 y = priority_of clients y)
            (sort clients news)) as Hkeys.
  { apply Forall_forall. intros r Hr%sort_elem_of.
    apply moved_priority_ne. intros ->. by eapply target_notin_new. }
  rewrite (moved_priority_target clients t client) by done.
  unfold before_target, after_target. f_equal; [|f_equal]; apply filter_ext_in;
    (eapply Forall_impl; [exact Hkeys|]); intros y Hy; simpl;
    by rewrite Hy.
Qed.

Lemma target_priority :
  priority_of cs t = inject_Z (Z.of_nat (length front) + 1).
Proof.
  apply changed_new; [done..|].
  rewrite new_sorted_split. by apply list_lookup_middle.
Qed.

Lemma above_priority m :
  m ∈ news → (priority_of clients m <= kt)%Q →
  (priority_of cs m < priority_of cs t)%Q.
Proof.
  intros Hm Hle.
  assert (m ∈ front) as [k Hk]%list_elem_of_lookup.
  { apply list_elem_of_filter. split; [done|]. by apply sort_elem_of. }
  rewrite target_priority.
  rewrite (changed_new clients t client status priority Ht Hs Hids k m).
  - rewrite <- Zlt_Qlt. apply lookup_lt_Some in Hk. lia.
  - rewrite new_sorted_split. by apply lookup_app_l_Some.
Qed.

Lemma below_lookup k m :
  back !! k = Some m →
  priority_of cs m = inject_Z (Z.of_nat (length front + 1 + k) + 1).
Proof.
  intros Hk. apply changed_new; [done..|].
  rewrite new_sorted_split, lookup_app_r by lia.
  replace (length front + 1 + k - length front)%nat with (S k) by lia.
  done.
Qed.

Lemma below_priority m :
  m ∈ news → (kt < priority_of clients m)%Q →
  (priority_of cs t < priority_of cs m)%Q.
Proof.
  intros Hm Hlt.
  assert (m ∈ back) as [k Hk]%list_elem_of_lookup.
  { apply list_elem_of_filter. split; [done|]. by apply sort_elem_of. }
  rewrite target_priority, (below_lookup k m Hk).
  rewrite <- Zlt_Qlt. lia.
Qed.

(** No member of the new lane is front the target's rank: the target is
    last. *)
Lemma target_last :
  Forall (λ m, priority_of clients m <= kt)%Q news →
  priority_of cs t = inject_Z (Z.of_nat (length news) + 1).
Proof.
  intros Hall. rewrite target_priority. unfold before_target.
  rewrite filter_all; [by rewrite sort_length|].
  by rewrite sort_perm.
Qed.

(** The member that holds the integer priority [p], when the priorities
    of the lane are integers and no other member holds [p], comes right
    after the target placed at [p - 0.5]. *)
Lemma holder_next p m :
  priority = Some p → p ≠ 0 → half_is_exact p = true →
  Forall (λ r, ∃ z, priority_of clients r == inject_Z z)%Q news →
  m ∈ news → (priority_of clients m == inject_Z p)%Q →
  (∀ r, r ∈ news → (priority_of clients r == inject_Z p)%Q → r = m) →
  priority_of cs m = (priority_of cs t + 1)%Q.
Proof.
  intros Hpr Hp Hexact Hint Hm Hmp Huniq.
  assert (kt = (inject_Z p - (1 # 2))%Q) as Hkt.
  { unfold target_rank, minus_half, truthy_priority.
    by rewrite Hpr, (proj2 (Z.eqb_neq p 0) Hp), Hexact. }
  assert (m ∈ back) as Hmb.
  { apply list_elem_of_filter. split; [|by apply sort_elem_of].
    rewrite Hkt, Hmp. lra. }
  assert (StronglySorted (key_le clients) back) as Hsorted.
  { apply StronglySorted_filter, sort_sorted. }
  assert (back !! 0%nat = Some m) as Hhead.
  { destruct back as [|y l] eqn:Hb; [by apply elem_of_nil in Hmb|].
    simpl. f_equal. apply Huniq.
    - assert (y ∈ back) as Hy by (rewrite Hb; left).
      apply list_elem_of_filter in Hy as [_ Hy]. by apply sort_elem_of in Hy.
    - assert (y ∈ back) as Hy by (rewrite Hb; left).
      apply list_elem_of_filter in Hy as [Hgt Hy%sort_elem_of].
      rewrite Forall_forall in Hint. destruct (Hint y Hy) as [z Hz].
      assert (key_le clients y m) as Hle.
      { apply elem_of_cons in Hmb as [->|Hmb]; [unfold key_le; lra|].
        apply StronglySorted_inv in Hsorted as [_ Hall].
        rewrite Forall_forall in Hall. by apply Hall. }
      unfold key_le in Hle. rewrite Hkt, Hz in Hgt. rewrite Hz, Hmp in Hle.
      rewrite Hz. apply inject_Z_injective.
      rewrite <- Zle_Qle in Hle.
      assert (p ≤ z); [|lia].
      revert Hgt. unfold Qlt, Qminus, Qplus, Qopp, inject_Z. simpl. lia. }
  rewrite (below_lookup 0 m Hhead), target_priority.
  change 1%Q with (inject_Z 1).
  rewrite <- inject_Z_plus. f_equal. lia.
Qed.
End target_position.

(** *** Relative order *)

Section order_kept.
Variables (clients : heap) (t : ref) (client : Client.t).
Variables (status : option string) (priority : option Z).
Hypothesis Ht : clients !! t = Some client.
Hypothesis Hs : Client.status client ≠ status.
Hypothesis Hids : NoDup (Client.id <$> clients).

Abbreviation olds := (old_members clients t client).
Abbreviation news := (new_members clients status).
Abbreviation olds' := (old_sorted clients t client).
Abbreviation news' := (new_sorted clients t status priority).
Abbreviation h2 := (moved clients t status priority).
Abbreviation cs := (changed clients t client status priority).

Lemma precedes_priority (l : list ref) a b :
  (∀ k r, l !! k = Some r → priority_of cs r = inject_Z (Z.of_nat k + 1)) →
  precedes l a b → (priority_of cs a < priority_of cs b)%Q.
Proof.
  intros Hl (i & j & Hij & Hi & Hj).
  rewrite (Hl i a Hi), (Hl j b Hj), <- Zlt_Qlt. lia.
Qed.

Lemma keeps_order_old : keeps_order clients cs olds.
Proof.
  intros a b Ha Hb [Hlt|[Heq Hlt]]; [by apply order_old|].
  apply (precedes_priority olds'); [by apply changed_old|].
  apply sort_stable; [|lra].
  unfold old_members, lane in *. rewrite list_filter_filter in *.
  by apply precedes_filter_seq.
Qed.

Lemma keeps_order_new : keeps_order clients cs news.
Proof.
  intros a b Ha Hb [Hlt|[Heq Hlt]]; [by apply order_new|].
  assert (a ≠ t ∧ b ≠ t) as [Hat Hbt].
  { split; intros ->; by eapply target_notin_new. }
  apply (precedes_priority news'); [by apply changed_new|].
  apply sort_stable; [|rewrite !moved_priority_ne by done; lra].
  assert (precedes news a b) as (i & j & Hij & Hi & Hj).
  { unfold new_members, lane in *. by apply precedes_filter_seq. }
  exists i, j. split; [done|]. split; by apply lookup_app_l_Some.
Qed.
End order_kept.

(** *** The lanes after a change of lane *)

Section lanes_after.
Variables (clients : heap) (t : ref) (client : Client.t).
Variables (status : option string) (priority : option Z).
Hypothesis Ht : clients !! t = Some client.
Hypothesis Hs : Client.status client ≠ status.
Hypothesis Hids : NoDup (Client.id <$> clients).

Abbreviation olds := (old_members clients t client).
Abbreviation news := (new_members clients status).
Abbreviation cs := (changed clients t client status priority).

(** The old lane lost the target and nothing else. *)
Lemma old_lane_after : lane cs (Client.status client) = olds.
Proof.
  unfold lane at 1, old_members, lane.
  rewrite changed_length by done. rewrite list_filter_filter.
  apply list_filter_iff. intros r. rewrite changed_status by done.
  destruct (decide (r = t)) as [->|Hne]; [|tauto].
  split; [congruence|tauto].
Qed.

(** The new lane gained the target and nothing else. *)
Lemma new_lane_after : lane cs status ≡ₚ news ++ [t].
Proof.
  apply NoDup_Permutation.
  - apply lane_NoDup.
  - by eapply new_with_target_NoDup.
  - intros r. rewrite elem_of_app, list_elem_of_singleton.
    unfold new_members. rewrite !elem_of_lane.
    rewrite changed_length, changed_status by done.
    destruct (decide (r = t)) as [->|Hne]; [|tauto].
    pose proof (target_lt clients t client Ht). tauto.
Qed.

Lemma dense_old_after : dense_lane cs (Client.status client).
Proof. unfold dense_lane. rewrite old_lane_after. by apply dense_old. Qed.

Lemma dense_new_after : dense_lane cs status.
Proof.
  unfold dense_lane. rewrite new_lane_after.
  rewrite length_app. simpl. rewrite Nat.add_1_r. by apply dense_new.
Qed.
End lanes_after.

(** ** The handler *)

Lemma find_lookup (db : list Client.t) i t client :
  list_find (λ c, Client.id c = i) db = Some (t, client) →
  db !! t = Some client ∧ Client.id client = i.
Proof. rewrite list_find_Some. tauto. Qed.

Lemma valid_status_passes s :
  s ∈ validStatuses →
  truthy_status (Some s) && negb (includes validStatuses (Some s)) = false.
Proof. intros Hs. simpl. by rewrite (bool_decide_true (s ∈ _)), andb_false_r. Qed.

(** A request for a known client whose status, if truthy, is valid: the
    handler reorders, runs the updates and sends the array. *)
Lemma put_client_found db i t client status priority :
  list_find (λ c, Client.id c = i) db = Some (t, client) →
  truthy_status status && negb (includes validStatuses status) = false →
  put_client db (Request (Some i) status priority)
  = Outcome [Response 200 (Clients (reorder db t client status priority).1)]
      (updates (reorder db t client status priority).1
         (reorder db t client status priority).2)
      Returned.
Proof.
  intros Hfind Hstatus. unfold put_client, validateId, db_get. simpl.
  rewrite Hfind. simpl. rewrite Hstatus.
  by destruct (reorder db t client status priority).
Qed.

Lemma send_and_return_sent sent0 ws r x :
  x ∈ sent (send_and_return sent0 ws r) → x ∈ sent0 ∨ x = r.
Proof.
  destruct sent0 as [|y sent0]; simpl.
  - rewrite list_elem_of_singleton. by right.
  - by left.
Qed.

(** The array is sent only on that path. *)
Lemma put_client_sent_clients db rq cs :
  Response 200 (Clients cs) ∈ sent (put_client db rq) →
  ∃ i t client,
    req_id rq = Some i
    ∧ list_find (λ c, Client.id c = i) db = Some (t, client)
    ∧ cs = (reorder db t client (req_status rq) (req_priority rq)).1.
Proof.
  destruct rq as [id status priority]. unfold put_client. simpl.
  set (sent0 := if valid _ then _ else _).
  assert (Response 200 (Clients cs) ∉ sent0) as Hsent0.
  { unfold sent0. destruct (valid _); [apply not_elem_of_nil|].
    destruct (v_message _); simpl; [|apply not_elem_of_nil].
    rewrite list_elem_of_singleton. congruence. }
  destruct (truthy_status status && _); simpl.
  { intros [?|?]%send_and_return_sent; [done|]. congruence. }
  destruct id as [i|]; simpl; [|done].
  destruct (list_find _ db) as [[t client]|] eqn:Hfind; simpl; [|done].
  destruct (reorder db t client status priority) as [h u] eqn:Hre.
  intros [?|Heq]%send_and_return_sent; [done|].
  exists i, t, client. simplify_eq. by rewrite Hre.
Qed.

(** Every path of the reordering keeps the objects in place: only their
    [status] and [priority] fields are assigned. *)
Lemma reorder_length clients t client status priority :
  length (reorder clients t client status priority).1 = length clients.
Proof.
  unfold reorder. destruct (group _ _ _) as [olds news].
  destruct (_ && _); [|destruct (negb _)]; simpl; [| |done];
    unfold renumber; by rewrite !renumber_from_length, !length_alter.
Qed.

Lemma reorder_id clients t client status priority r :
  id_of (reorder clients t client status priority).1 r = id_of clients r.
Proof.
  unfold reorder. destruct (group _ _ _) as [olds news].
  destruct (_ && _); [|destruct (negb _)]; simpl; [| |done];
    unfold renumber;
    by rewrite !renumber_from_id, ?id_of_set_priority, ?id_of_set_status.
Qed.

(** An object outside the target's lane and outside the requested lane is
    in neither array, so no path assigns to it. *)
Lemma reorder_frame clients t client status priority r :
  clients !! t = Some client →
  status_of clients r ≠ Client.status client →
  status_of clients r ≠ status →
  (reorder clients t client status priority).1 !! r = clients !! r.
Proof.
  intros Ht Ho Hn.
  assert (r ≠ t) as Hne.
  { intros ->. apply Ho. unfold status_of. by rewrite Ht. }
  destruct (decide (Client.status client = status)) as [Heq|Hdiff].
  - destruct (shouldReorderPriority (Client.priority client) priority) eqn:Hp.
    + rewrite reorder_same_lane by done. by rewrite !list_lookup_alter_ne.
    + by rewrite reorder_noop.
  - rewrite reorder_lane_change by done. cbv zeta. unfold renumber.
    rewrite renumber_from_notin.
    2:{ rewrite sort_elem_of, elem_of_app, list_elem_of_singleton, elem_of_lane.
        tauto. }
    rewrite renumber_from_notin.
    2:{ rewrite sort_elem_of, list_elem_of_filter, elem_of_lane. tauto. }
    by rewrite !list_lookup_alter_ne.
Qed.

(** ** Integer priorities against the rank [p - 0.5] *)

Lemma minus_half_above (a p : Z) :
  (inject_Z a <= inject_Z p - (1 # 2))%Q ↔ a < p.
Proof. unfold Qle, Qminus, Qplus, Qopp, inject_Z. simpl. lia. Qed.

Lemma minus_half_below (a p : Z) :
  (inject_Z p - (1 # 2) < inject_Z a)%Q ↔ p ≤ a.
Proof. unfold Qlt, Qminus, Qplus, Qopp, inject_Z. simpl. lia. Qed.

Lemma half_is_exact_spec (p : Z) :
  half_is_exact p = true ↔ - 4503599627370496 < p ≤ 4503599627370496.
Proof. unfold half_is_exact. rewrite andb_true_iff. lia. Qed.

Lemma target_rank_truthy (p : Z) :
  p ≠ 0 → half_is_exact p = true →
  target_rank (Some p) = (inject_Z p - (1 # 2))%Q.
Proof.
  intros Hp Hexact. unfold target_rank, minus_half, truthy_priority.
  by rewrite (proj2 (Z.eqb_neq p 0) Hp), Hexact.
Qed.

(** Rounded or not, the rank of the target is between [p - 1] and [p]. *)
Lemma target_rank_bounds (p : Z) :
  p ≠ 0 →
  (inject_Z (p - 1) <= target_rank (Some p) <= inject_Z p)%Q.
Proof.
  intros Hp. unfold target_rank, minus_half, truthy_priority.
  rewrite (proj2 (Z.eqb_neq p 0) Hp). simpl.
  destruct (half_is_exact p).
  - unfold Qle, Qminus, Qplus, Qopp, inject_Z. simpl. lia.
  - rewrite <- !Zle_Qle. destruct (Z.even p); lia.
Qed.

(** The members of a densely numbered lane hold integers between 1 and the
    size of the lane. *)
Lemma dense_lane_bounds (h : heap) s r :
  dense_lane h s → r ∈ lane h s →
  ∃ k : Z, priority_of h r = inject_Z k ∧ 1 ≤ k ≤ Z.of_nat (length (lane h s)).
Proof.
  intros Hdense Hr.
  assert (priority_of h r ∈ ranks (length (lane h s))) as Hin.
  { rewrite <- Hdense. by apply list_elem_of_fmap_2. }
  apply list_elem_of_fmap in Hin as (k & -> & Hk).
  apply elem_of_seq in Hk. exists (Z.of_nat k). split; [done|lia].
Qed.

(** * The properties of the specification *)

(** C9.  Whenever the handler sends the list of clients, the list has the
    length of the table it read and the same ids in the same positions: no
    client is created, duplicated or dropped. *)
Theorem returned_list_same_clients db rq cs :
  Response 200 (Clients cs) ∈ sent (put_client db rq) →
  length cs = length db ∧ Client.id <$> cs = Client.id <$> db.
Proof.
  intros (i & t & client & _ & _ & ->)%put_client_sent_clients.
  split; [apply reorder_length|].
  apply ids_eq; [apply reorder_length|apply reorder_id].
Qed.

Lemma returned_list_same_clients_witness :
  length board_A_to_in_progress_3 = length board
  ∧ Client.id <$> board_A_to_in_progress_3 = Client.id <$> board.
Proof.
  apply (returned_list_same_clients board
           (Request (Some 1) (Some "in-progress"%string) None)).
  vm_compute. left.
Defined.

(** C8.  A client whose status is neither the status of the target nor the
    requested status is untouched: the list the handler sends holds it
    unchanged, at the same position. *)
Theorem other_lanes_untouched db i status priority t client cs r c :
  list_find (λ c, Client.id c = i) db = Some (t, client) →
  Response 200 (Clients cs)
    ∈ sent (put_client db (Request (Some i) status priority)) →
  db !! r = Some c →
  Client.status c ≠ Client.status client →
  Client.status c ≠ status →
  cs !! r = Some c.
Proof.
  intros Hfind (i' & t' & client' & Hi & Hfind' & ->)%put_client_sent_clients.
  simpl in *. simplify_eq. intros Hr Ho Hn. rewrite <- Hr.
  apply find_lookup in Hfind as [Ht _].
  apply reorder_frame; [done|..]; unfold status_of; by rewrite Hr.
Qed.

Lemma other_lanes_untouched_witness :
  board_A_to_in_progress_3 !! 3%nat = Some (mk 4 "D" "complete" 1).
Proof.
  apply (other_lanes_untouched board 1 (Some "in-progress"%string) None
           0%nat (mk 1 "A" "backlog" 1) board_A_to_in_progress_3 3%nat).
  - reflexivity.
  - vm_compute. left.
  - reflexivity.
  - discriminate.
  - discriminate.
Defined.

(** What a change of lane sends, for a known client and a valid status. *)
Lemma lane_change_sent db i t client s priority :
  list_find (λ c, Client.id c = i) db = Some (t, client) →
  s ∈ validStatuses →
  sent (put_client db (Request (Some i) (Some s) priority))
  = [Response 200 (Clients (changed db t client (Some s) priority))].
Proof.
  intros Hfind Hs.
  rewrite (put_client_found db i t client); [done..|].
  by apply valid_status_passes.
Qed.

(** C10, as stated, fails: the target is sorted by its rank [priority -
    0.5] against the priorities the members hold, not against the size of
    the lane.  In a destination lane that is not densely numbered a member
    can hold more than the requested priority: here the lane holds X(100),
    the requested priority 5 is above 1 + 1, and the moved client A is
    first of 2, not last. *)
Lemma out_of_range_not_last_in_sparse_lane :
  sent (put_client sparse_lane
          (Request (Some 1) (Some "in-progress"%string) (Some 5)))
  = [Response 200 (Clients sparse_lane_moved)]
  ∧ Z.of_nat (length (lane sparse_lane (Some "in-progress"%string))) + 1 < 5
  ∧ priority_of sparse_lane_moved 0%nat
    ≠ inject_Z (Z.of_nat (length (lane sparse_lane_moved
                                    (Some "in-progress"%string)))).
Proof. split; [reflexivity|]. split; [reflexivity|discriminate]. Qed.

(** C10, amended.  A change of lane to a destination lane that is densely
    numbered, with a requested priority above the size of the lane plus
    one: the moved client gets the last rank of the destination lane,
    every other member is ahead of it, and the lane is still densely
    numbered. *)
Theorem out_of_range_priority_is_last db i t client s p :
  NoDup (Client.id <$> db) →
  list_find (λ c, Client.id c = i) db = Some (t, client) →
  s ∈ validStatuses →
  Client.status client ≠ Some s →
  dense_lane db (Some s) →
  Z.of_nat (length (lane db (Some s))) + 1 < p →
  ∃ cs,
    sent (put_client db (Request (Some i) (Some s) (Some p)))
    = [Response 200 (Clients cs)]
    ∧ status_of cs t = Some s
    ∧ lane cs (Some s) ≡ₚ lane db (Some s) ++ [t]
    ∧ priority_of cs t = inject_Z (Z.of_nat (length (lane cs (Some s))))
    ∧ (∀ m, m ∈ lane db (Some s) →
         (priority_of cs m < priority_of cs t)%Q)
    ∧ dense_lane cs (Some s).
Proof.
  intros Hids Hfind Hs Hdiff Hdense Hp.
  exists (changed db t client (Some s) (Some p)).
  pose proof (find_lookup _ _ _ _ Hfind) as [Ht _].
  assert (Forall (λ m, priority_of db m <= target_rank (Some p))%Q
            (new_members db (Some s))) as Hall.
  { apply Forall_forall. intros m Hm.
    destruct (dense_lane_bounds db (Some s) m Hdense Hm) as (k & -> & Hk).
    destruct (target_rank_bounds p) as [Hlow _]; [lia|].
    apply Qle_trans with (inject_Z (p - 1)); [|exact Hlow].
    rewrite <- Zle_Qle. lia. }
  pose proof (new_lane_after db t client (Some s) (Some p) Ht Hdiff Hids)
    as Hlane.
  split; [by apply lane_change_sent|].
  split; [by rewrite changed_status, decide_True|].
  split; [done|].
  split.
  { rewrite Hlane, length_app, (target_last db t client) by done.
    unfold new_members. simpl. f_equal. lia. }
  split; [|by apply dense_new_after].
  intros m Hm. apply above_priority; [done..|].
  rewrite Forall_forall in Hall. by apply Hall.
Qed.

Lemma out_of_range_priority_is_last_witness :
  ∃ cs,
    sent (put_client board (Request (Some 1) (Some "in-progress"%string) (Some 9)))
    = [Response 200 (Clients cs)]
    ∧ status_of cs 0%nat = Some "in-progress"%string
    ∧ lane cs (Some "in-progress"%string)
      ≡ₚ lane board (Some "in-progress"%string) ++ [0%nat]
    ∧ priority_of cs 0%nat
      = inject_Z (Z.of_nat (length (lane cs (Some "in-progress"%string))))
    ∧ (∀ m, m ∈ lane board (Some "in-progress"%string) →
         (priority_of cs m < priority_of cs 0%nat)%Q)
    ∧ dense_lane cs (Some "in-progress"%string).
Proof.
  apply (out_of_range_priority_is_last board 1 0%nat (mk 1 "A" "backlog" 1)).
  - apply (bool_decide_unpack _). vm_compute. exact I.
  - reflexivity.
  - apply (bool_decide_unpack _). vm_compute. exact I.
  - discriminate.
  - vm_compute. reflexivity.
  - vm_compute. reflexivity.
Defined.

(** C5, as stated, fails: without a requested priority the target gets the
    rank [Number.MAX_SAFE_INTEGER] before the sort, so a member of the
    destination lane that holds a larger priority stays behind it.  Here
    the moved client A gets rank 1 of 2. *)
Lemma append_not_last_beyond_safe :
  sent (put_client beyond_safe
          (Request (Some 1) (Some "in-progress"%string) None))
  = [Response 200 (Clients beyond_safe_moved)]
  ∧ priority_of beyond_safe_moved 0%nat
    ≠ inject_Z (Z.of_nat (length (lane beyond_safe_moved
                                    (Some "in-progress"%string)))).
Proof. split; [reflexivity|discriminate]. Qed.

(** C5, amended.  A change of lane without a requested priority, when no
    member of the destination lane holds a priority above
    [Number.MAX_SAFE_INTEGER]: the old lane loses the target and its other
    members are numbered 1..n-1 in their former order; the destination lane
    gains the target, which gets the last rank n, and its former members
    keep their order.  In scenario B the result is backlog B=1 and
    in-progress X=1, A=2, in the list sent and in the table. *)
Theorem lane_change_appends :
  (∀ db i t client s,
     NoDup (Client.id <$> db) →
     list_find (λ c, Client.id c = i) db = Some (t, client) →
     s ∈ validStatuses →
     Client.status client ≠ Some s →
     Forall (λ m, priority_of db m <= inject_Z MAX_SAFE_INTEGER)%Q
       (lane db (Some s)) →
     ∃ cs,
       sent (put_client db (Request (Some i) (Some s) None))
       = [Response 200 (Clients cs)]
       ∧ lane cs (Client.status client)
         = filter (λ r, r ≠ t) (lane db (Client.status client))
       ∧ dense_lane cs (Client.status client)
       ∧ keeps_order db cs (lane cs (Client.status client))
       ∧ status_of cs t = Some s
       ∧ lane cs (Some s) ≡ₚ lane db (Some s) ++ [t]
       ∧ priority_of cs t = inject_Z (Z.of_nat (length (lane cs (Some s))))
       ∧ dense_lane cs (Some s)
       ∧ keeps_order db cs (lane db (Some s)))
  ∧ sent (put_client scenarioB
            (Request (Some 1) (Some "in-progress"%string) None))
    = [Response 200 (Clients scenarioB_appended)]
  ∧ commit scenarioB
      (writes (put_client scenarioB
                 (Request (Some 1) (Some "in-progress"%string) None)))
    = scenarioB_appended.
Proof.
  split; [|split; reflexivity].
  intros db i t client s Hids Hfind Hs Hdiff Hsafe.
  exists (changed db t client (Some s) None).
  pose proof (find_lookup _ _ _ _ Hfind) as [Ht _].
  pose proof (new_lane_after db t client (Some s) None Ht Hdiff Hids)
    as Hlane.
  pose proof (old_lane_after db t client (Some s) None Ht Hdiff Hids)
    as Hold.
  split; [by apply lane_change_sent|].
  split; [done|].
  split; [by apply dense_old_after|].
  split; [rewrite Hold; by apply keeps_order_old|].
  split; [by rewrite changed_status, decide_True|].
  split; [done|].
  split.
  { rewrite Hlane, length_app, (target_last db t client) by done.
    unfold new_members. simpl. f_equal. lia. }
  split; [by apply dense_new_after|by apply keeps_order_new].
Qed.

Lemma lane_change_appends_witness :
  ∃ cs,
    sent (put_client board (Request (Some 1) (Some "in-progress"%string) None))
    = [Response 200 (Clients cs)]
    ∧ lane cs (Some "backlog"%string)
      = filter (λ r, r ≠ 0%nat) (lane board (Some "backlog"%string))
    ∧ dense_lane cs (Some "backlog"%string)
    ∧ keeps_order board cs (lane cs (Some "backlog"%string))
    ∧ status_of cs 0%nat = Some "in-progress"%string
    ∧ lane cs (Some "in-progress"%string)
      ≡ₚ lane board (Some "in-progress"%string) ++ [0%nat]
    ∧ priority_of cs 0%nat
      = inject_Z (Z.of_nat (length (lane cs (Some "in-progress"%string))))
    ∧ dense_lane cs (Some "in-progress"%string)
    ∧ keeps_order board cs (lane board (Some "in-progress"%string)).
Proof.
  apply (proj1 lane_change_appends board 1 0%nat (mk 1 "A" "backlog" 1)).
  - apply (bool_decide_unpack _). vm_compute. exact I.
  - reflexivity.
  - apply (bool_decide_unpack _). vm_compute. exact I.
  - discriminate.
  - repeat constructor; vm_compute; discriminate.
Defined.

(** C6, as stated, fails: [priority - 0.5] is computed in doubles, and
    from 2^52 + 2 on an even [priority] is its own result.  The target then
    ties with the member that holds the priority, the stable sort keeps the
    member first, and the target lands right after it, not before. *)
Lemma insert_after_holder_beyond_exact :
  sent (put_client beyond_exact
          (Request (Some 1) (Some "in-progress"%string)
             (Some 4503599627370498)))
  = [Response 200 (Clients beyond_exact_moved)]
  ∧ priority_of beyond_exact 1%nat = inject_Z 4503599627370498
  ∧ (priority_of beyond_exact_moved 1%nat
     < priority_of beyond_exact_moved 0%nat)%Q
  ∧ priority_of beyond_exact_moved 1%nat
    ≠ (priority_of beyond_exact_moved 0%nat + 1)%Q.
Proof.
  split; [reflexivity|]. split; [reflexivity|].
  split; [reflexivity|discriminate].
Qed.

(** C6, amended.  A change of lane with a requested priority [p] of
    magnitude up to 2^52 (more precisely -2^52 < p <= 2^52, where [p - 0.5]
    is exact), the priorities of the destination lane being integers from
    1 on: the destination lane gains the target and is densely numbered,
    its former members keep their order, and the member that alone holds
    [p] gets the rank right after the target's: the target is inserted
    immediately before it.  For [p] other than 0 the members with a
    priority below [p] are ahead of the target and the others behind it.
    In scenario C the result is backlog B=1 and in-progress A=1, X=2, in
    the list sent and in the table. *)
Theorem lane_change_inserts :
  (∀ db i t client s p,
     NoDup (Client.id <$> db) →
     list_find (λ c, Client.id c = i) db = Some (t, client) →
     s ∈ validStatuses →
     Client.status client ≠ Some s →
     - 4503599627370496 < p ≤ 4503599627370496 →
     Forall (λ m, ∃ z, 1 ≤ z ∧ priority_of db m == inject_Z z)%Q
       (lane db (Some s)) →
     ∃ cs,
       sent (put_client db (Request (Some i) (Some s) (Some p)))
       = [Response 200 (Clients cs)]
       ∧ status_of cs t = Some s
       ∧ lane cs (Some s) ≡ₚ lane db (Some s) ++ [t]
       ∧ dense_lane cs (Some s)
       ∧ keeps_order db cs (lane db (Some s))
       ∧ (∀ m, m ∈ lane db (Some s) →
            (priority_of db m == inject_Z p)%Q →
            (∀ r, r ∈ lane db (Some s) →
               (priority_of db r == inject_Z p)%Q → r = m) →
            priority_of cs m = (priority_of cs t + 1)%Q)
       ∧ (p ≠ 0 →
          ∀ m, m ∈ lane db (Some s) →
            ((priority_of db m < inject_Z p)%Q →
             (priority_of cs m < priority_of cs t)%Q)
            ∧ ((inject_Z p <= priority_of db m)%Q →
               (priority_of cs t < priority_of cs m)%Q)))
  ∧ sent (put_client scenarioB
            (Request (Some 1) (Some "in-progress"%string) (Some 1)))
    = [Response 200 (Clients scenarioC_inserted)]
  ∧ commit scenarioB
      (writes (put_client scenarioB
                 (Request (Some 1) (Some "in-progress"%string) (Some 1))))
    = scenarioC_inserted.
Proof.
  split; [|split; reflexivity].
  intros db i t client s p Hids Hfind Hs Hdiff Hrange Hint.
  exists (changed db t client (Some s) (Some p)).
  pose proof (find_lookup _ _ _ _ Hfind) as [Ht _].
  apply half_is_exact_spec in Hrange.
  rewrite Forall_forall in Hint.
  split; [by apply lane_change_sent|].
  split; [by rewrite changed_status, decide_True|].
  split; [by apply new_lane_after|].
  split; [by apply dense_new_after|].
  split; [by apply keeps_order_new|].
  split.
  - intros m Hm Hmp Huniq.
    destruct (Hint m Hm) as (z & Hz & Hmz).
    assert (p ≠ 0) as Hp.
    { intros ->. rewrite Hmp, inject_Z_injective in Hmz. lia. }
    apply (holder_next db t client (Some s) (Some p)) with p; try done.
    apply Forall_forall. intros r Hr.
    destruct (Hint r Hr) as (z' & _ & Hz'). by exists z'.
  - intros Hp m Hm. destruct (Hint m Hm) as (z & _ & Hz). split.
    + intros Hlt. apply above_priority; [done..|].
      rewrite target_rank_truthy by done.
      rewrite Hz in *. apply minus_half_above. by rewrite Zlt_Qlt.
    + intros Hle. apply below_priority; [done..|].
      rewrite target_rank_truthy by done. lra.
Qed.

Lemma lane_change_inserts_witness :
  ∃ cs,
    sent (put_client board
            (Request (Some 1) (Some "in-progress"%string) (Some 2)))
    = [Response 200 (Clients cs)]
    ∧ status_of cs 0%nat = Some "in-progress"%string
    ∧ lane cs (Some "in-progress"%string)
      ≡ₚ lane board (Some "in-progress"%string) ++ [0%nat]
    ∧ dense_lane cs (Some "in-progress"%string)
    ∧ keeps_order board cs (lane board (Some "in-progress"%string))
    ∧ (∀ m, m ∈ lane board (Some "in-progress"%string) →
         (priority_of board m == inject_Z 2)%Q →
         (∀ r, r ∈ lane board (Some "in-progress"%string) →
            (priority_of board r == inject_Z 2)%Q → r = m) →
         priority_of cs m = (priority_of cs 0%nat + 1)%Q)
    ∧ (2 ≠ 0 →
       ∀ m, m ∈ lane board (Some "in-progress"%string) →
         ((priority_of board m < inject_Z 2)%Q →
          (priority_of cs m < priority_of cs 0%nat)%Q)
         ∧ ((inject_Z 2 <= priority_of board m)%Q →
            (priority_of cs 0%nat < priority_of cs m)%Q)).
Proof.
  apply (proj1 lane_change_inserts board 1 0%nat (mk 1 "A" "backlog" 1)).
  - apply (bool_decide_unpack _). vm_compute. exact I.
  - reflexivity.
  - apply (bool_decide_unpack _). vm_compute. exact I.
  - discriminate.
  - lia.
  - change (lane board (Some "in-progress"%string)) with [1%nat; 2%nat].
    repeat constructor; [exists 1|exists 2]; by split.
Defined.

(** C7.  The handler at client A of scenario B and the empty string as
    requested status: the empty string is none of backlog, in-progress,
    complete, but it is falsy, the check of line 143 skips it, and case 2
    runs with it as the new status.  The handler answers 200 and stores the
    empty string as the status of A, in the list sent and in the table; the
    specification says that InvalidStatus is signalled and nothing
    changes. *)
Lemma empty_status_not_rejected :
  (EmptyString ∉ validStatuses)
  ∧ sent (put_client scenarioB (Request (Some 1) (Some EmptyString) None))
    = [Response 200 (Clients scenarioB_empty_status)]
  ∧ commit scenarioB
      (writes (put_client scenarioB (Request (Some 1) (Some EmptyString) None)))
    = scenarioB_empty_status.
Proof.
  split; [|split; reflexivity].
  apply (bool_decide_unpack _). vm_compute. exact I.
Qed.

(** For a known client and a requested status that is not empty and is
    none of backlog, in-progress, complete, the handler sends the one
    response 400 "Invalid status provided" and runs no statement: the table
    is unchanged. *)
Lemma invalid_status_rejected db i s priority :
  is_Some (db_get db i) →
  s ≠ EmptyString →
  s ∉ validStatuses →
  put_client db (Request (Some i) (Some s) priority)
  = Outcome [Response 400 (Message invalidStatus)] [] Returned
  ∧ commit db (writes (put_client db (Request (Some i) (Some s) priority)))
    = db.
Proof.
  intros [c Hc] Hne Hs.
  assert (put_client db (Request (Some i) (Some s) priority)
          = Outcome [Response 400 (Message invalidStatus)] [] Returned) as ->.
  { unfold put_client, validateId. simpl. rewrite Hc. simpl.
    by rewrite bool_decide_false, (bool_decide_false (s ∈ _)). }
  done.
Qed.

Lemma invalid_status_rejected_witness :
  put_client scenarioB (Request (Some 1) (Some "done"%string) None)
  = Outcome [Response 400 (Message invalidStatus)] [] Returned
  ∧ commit scenarioB
      (writes (put_client scenarioB
                 (Request (Some 1) (Some "done"%string) None)))
    = scenarioB.
Proof.
  apply (invalid_status_rejected scenarioB 1 "done" None).
  - vm_compute. eexists. reflexivity.
  - discriminate.
  - apply (bool_decide_unpack _). vm_compute. exact I.
Defined.

(** ** Where the handler departs from the specification *)

(** The same lane, another priority (case 1): the array that the handler
    sorts and renumbers holds the target alone, so the target gets priority
    1 and no other object is written. *)
Lemma same_lane_result db i t client s p :
  list_find (λ c, Client.id c = i) db = Some (t, client) →
  s ∈ validStatuses →
  Client.status client = Some s →
  p ≠ 0 →
  ¬ (Client.priority client == inject_Z p)%Q →
  sent (put_client db (Request (Some i) (Some s) (Some p)))
  = [Response 200 (Clients (<[t := Client.set_priority 1 client]> db))].
Proof.
  intros Hfind Hs Hsame Hp Hdiff.
  pose proof (find_lookup _ _ _ _ Hfind) as [Ht _].
  rewrite (put_client_found db i t client) by (by try apply valid_status_passes).
  simpl. rewrite reorder_same_lane; [|done|].
  - do 3 f_equal. apply list_eq. intros r.
    destruct (decide (t = r)) as [<-|Hne].
    + rewrite !list_lookup_alter_eq, Ht, list_lookup_insert_eq; [done|].
      by eapply lookup_lt_Some.
    + by rewrite !list_lookup_alter_ne, list_lookup_insert_ne.
  - simpl. rewrite (proj2 (Z.eqb_neq p 0) Hp). simpl.
    apply negb_true_iff, not_true_iff_false. by rewrite Qeq_bool_iff.
Qed.

(** The requested status and priority are the current ones: the handler
    sends the table as it read it. *)
Lemma current_values_no_change db i t client s p :
  list_find (λ c, Client.id c = i) db = Some (t, client) →
  s ∈ validStatuses →
  Client.status client = Some s →
  (Client.priority client == inject_Z p)%Q →
  sent (put_client db (Request (Some i) (Some s) (Some p)))
  = [Response 200 (Clients db)].
Proof.
  intros Hfind Hs Hsame Hp.
  rewrite (put_client_found db i t client) by (by try apply valid_status_passes).
  simpl. rewrite reorder_noop; [done..|].
  simpl. apply Qeq_bool_iff in Hp. rewrite Hp. apply andb_false_r.
Qed.

(** An unknown id: the handler sends the response 400 of [validateId] and
    goes on.  It reads the table, checks the status, and throws: at the
    second [send] when the status fails the check, at [client.status] of
    [undefined] otherwise; it runs no statement. *)
Lemma unknown_id_outcome db i status priority :
  db_get db i = None →
  put_client db (Request (Some i) status priority)
  = let invalidId :=
      Response 400
        (Message (MessageObj "Invalid id provided."
                    "Cannot find client with that id.")) in
    Outcome [invalidId] []
      (if truthy_status status && negb (includes validStatuses status)
       then ThrewHeadersSent else ThrewTypeError).
Proof.
  intros Hget. unfold put_client, validateId. simpl. rewrite Hget. simpl.
  destruct (_ && _); [done|].
  unfold db_get in Hget. by destruct (list_find _ db).
Qed.

(** C1.  The handler at a request for client A of scenario B that carries
    neither status nor priority: [newStatus] is [undefined], which differs
    from the status of A, so case 2 runs.  A loses its status and B moves
    from priority 2 to priority 1; the specification says that the set is
    returned unchanged. *)
Theorem absent_fields_move_the_target :
  sent (put_client scenarioB (Request (Some 1) None None))
  = [Response 200 (Clients scenarioB_no_fields)]
  ∧ writes (put_client scenarioB (Request (Some 1) None None))
    = [Run (Some "in-progress"%string) 1 3; Run (Some "backlog"%string) 1 2;
       Run None 1 1]
  ∧ scenarioB_no_fields ≠ scenarioB.
Proof. split; [reflexivity|]. split; [reflexivity|discriminate]. Qed.

(** C2.  The handler at scenario A, C moved to priority 1 within backlog:
    the members of the lane were all grouped into the array of the old
    status, the array the handler sorts and renumbers holds C alone, and
    the result is A=1, B=2, C=1, not C=1, A=2, B=3. *)
Theorem same_lane_move_renumbers_target_only :
  sent (put_client scenarioA
          (Request (Some 3) (Some "backlog"%string) (Some 1)))
  = [Response 200 (Clients scenarioA_moved)]
  ∧ commit scenarioA
      (writes (put_client scenarioA
                 (Request (Some 3) (Some "backlog"%string) (Some 1))))
    = scenarioA_moved
  ∧ scenarioA_moved ≠ scenarioA_expected.
Proof. split; [reflexivity|]. split; [reflexivity|discriminate]. Qed.

(** C3.  Scenario A is densely numbered in every lane; after C is moved to
    priority 1 within backlog, the lane backlog of the list the handler
    sends holds the priorities 1, 2, 1: it is not densely numbered, and A
    and C share priority 1. *)
Theorem same_lane_move_breaks_density :
  (∀ s, dense_lane scenarioA s)
  ∧ sent (put_client scenarioA
            (Request (Some 3) (Some "backlog"%string) (Some 1)))
    = [Response 200 (Clients scenarioA_moved)]
  ∧ priority_of scenarioA_moved <$> lane scenarioA_moved (Some "backlog"%string)
    = [1; 2; 1]%Q
  ∧ ¬ dense_lane scenarioA_moved (Some "backlog"%string).
Proof.
  split; [|split; [reflexivity|split; [reflexivity|]]].
  - intros s. unfold dense_lane.
    destruct (decide (s = Some "backlog"%string)) as [->|Hne]; [reflexivity|].
    assert (lane scenarioA s = []) as ->; [|reflexivity].
    unfold lane. apply filter_none. repeat constructor; cbn; congruence.
  - unfold dense_lane.
    change (priority_of scenarioA_moved
              <$> lane scenarioA_moved (Some "backlog"%string))
      with [1; 2; 1]%Q.
    change (ranks _) with [inject_Z 1; inject_Z 2; inject_Z 3].
    intros Hperm.
    assert (inject_Z 3 ∈ [1; 2; 1]%Q) as Hin.
    { rewrite Hperm. do 2 right. left. }
    repeat (apply elem_of_cons in Hin as [Hin|Hin]; [discriminate|]).
    by apply elem_of_nil in Hin.
Qed.

(** C4.  The handler at an id that no client of scenario B has.  It sends
    the response 400 of [validateId] and does not return: without a status
    it goes on to read [client.status] of [undefined] and throws a
    [TypeError]; with the status "done" it goes on to the check of the
    status and calls [send] a second time, which throws
    [ERR_HTTP_HEADERS_SENT].  It runs no statement in either case; the
    specification says that no further processing occurs. *)
Theorem unknown_id_is_processed_further :
  put_client scenarioB (Request (Some 9999) None None)
  = Outcome
      [Response 400
         (Message (MessageObj "Invalid id provided."
                     "Cannot find client with that id."))]
      [] ThrewTypeError
  ∧ put_client scenarioB (Request (Some 9999) (Some "done"%string) None)
    = Outcome
        [Response 400
           (Message (MessageObj "Invalid id provided."
                       "Cannot find client with that id."))]
        [] ThrewHeadersSent.
Proof. split; reflexivity. Qed.

(** * Further properties of the handlers *)

(** ** The fields the update never assigns *)

Lemma identity_alter (f : Client.t → Client.t) (t : ref) (h : heap) :
  (∀ c, identity (f c) = identity c) →
  identity <$> alter f t h = identity <$> h.
Proof.
  intros Hf. apply list_eq. intros r. rewrite !list_lookup_fmap.
  destruct (decide (t = r)) as [->|Hne].
  - rewrite list_lookup_alter_eq. destruct (h !! r); simpl; [|done].
    by rewrite Hf.
  - by rewrite list_lookup_alter_ne.
Qed.

Lemma identity_renumber_from l : ∀ i h,
  identity <$> renumber_from i l h = identity <$> h.
Proof.
  induction l as [|r l IH]; intros i h; simpl; [done|].
  rewrite IH. by apply identity_alter.
Qed.

Lemma reorder_identity clients t client status priority :
  identity <$> (reorder clients t client status priority).1
  = identity <$> clients.
Proof.
  unfold reorder. destruct (group _ _ _) as [olds news].
  destruct (_ && _); [|destruct (negb _)]; simpl; [| |done];
    unfold renumber; rewrite !identity_renumber_from;
    by rewrite !identity_alter.
Qed.

(** ** The statements of the transaction *)

(** Every object that the reordering assigns to is in [updatedClients]. *)
Lemma reorder_covers clients t client status priority r :
  r ∈ (reorder clients t client status priority).2
  ∨ (reorder clients t client status priority).1 !! r = clients !! r.
Proof.
  unfold reorder. destruct (group _ _ _) as [olds news].
  destruct (_ && _).
  - simpl. destruct (decide (r = t)) as [->|Hne].
    + left. rewrite !elem_of_app, sort_elem_of, elem_of_app.
      rewrite list_elem_of_singleton. tauto.
    + destruct (decide (r ∈ news)) as [Hin|Hnotin].
      * left. rewrite !elem_of_app, sort_elem_of, elem_of_app. tauto.
      * right. unfold renumber. rewrite renumber_from_notin.
        { by rewrite list_lookup_alter_ne. }
        rewrite sort_elem_of, elem_of_app, list_elem_of_singleton. tauto.
  - destruct (negb _); simpl; [|by right].
    match goal with
    | |- context [sort ?h (filter ?P olds)] =>
        set (h1 := h); set (olds1 := sort h1 (filter P olds))
    end.
    set (news1 := sort (renumber olds1 h1) (news ++ [t])).
    destruct (decide (r ∈ olds1)) as [Ho|Ho].
    { left. rewrite !elem_of_app. tauto. }
    destruct (decide (r ∈ news1)) as [Hn|Hn].
    { left. rewrite !elem_of_app. tauto. }
    right. unfold renumber. rewrite !renumber_from_notin by done.
    assert (r ≠ t) as Hne.
    { intros ->. apply Hn. unfold news1.
      rewrite sort_elem_of, elem_of_app, list_elem_of_singleton. tauto. }
    unfold h1. by rewrite !list_lookup_alter_ne.
Qed.

Lemma updates_elem_of (h : heap) (u : list ref) w :
  w ∈ updates h u ↔ ∃ r c, r ∈ u ∧ h !! r = Some c ∧ w = row_of c.
Proof.
  unfold updates. rewrite list_elem_of_omap. split.
  - intros (r & Hr & Hw). destruct (h !! r) as [c|] eqn:Hc; [|done].
    simpl in Hw. exists r, c. by simplify_eq.
  - intros (r & c & Hr & Hc & ->). exists r. by rewrite Hc.
Qed.

(** With unique ids, a row of the table after the statements [ws], each of
    them made from an object of [h]: the object of [h] at that position if
    a statement has its id, the row as it was otherwise. *)
Lemma commit_lookup (db h : list Client.t) (ws : list run) r c0 c :
  NoDup (Client.id <$> h) →
  (∀ w, w ∈ ws → ∃ c', c' ∈ h ∧ w = row_of c') →
  db !! r = Some c0 → h !! r = Some c → identity c0 = identity c →
  commit db ws !! r
  = Some (if decide (Client.id c ∈ run_id <$> ws) then c else c0).
Proof.
  intros Hnd Hws Hc0 Hc Hid. revert Hws.
  induction ws as [|w ws IH] using rev_ind; intros Hws.
  { done. }
  unfold commit in *. rewrite foldl_app. simpl. unfold db_update at 1.
  rewrite list_lookup_fmap, IH.
  2:{ intros w' Hw'. apply Hws. rewrite elem_of_app. by left. }
  simpl. f_equal.
  assert (Client.id (if decide (Client.id c ∈ run_id <$> ws) then c else c0)
          = Client.id c) as Hidx.
  { destruct (decide _); [done|]. unfold identity in Hid. by simplify_eq. }
  rewrite Hidx. rewrite fmap_app. simpl.
  destruct (decide (Client.id c = run_id w)) as [Heq|Hne].
  - destruct (decide (Client.id c ∈ (run_id <$> ws) ++ [run_id w]))
      as [_|Hnotin].
    2:{ exfalso. apply Hnotin.
        rewrite elem_of_app, list_elem_of_singleton. by right. }
    destruct (Hws w) as (c' & Hc' & ->).
    { rewrite elem_of_app, list_elem_of_singleton. by right. }
    simpl in Heq.
    assert (c' = c) as ->.
    { apply list_elem_of_lookup in Hc' as [r' Hr'].
      assert (r' = r) as ->; [|congruence].
      eapply (NoDup_lookup (Client.id <$> h)); [done|..].
      - rewrite list_lookup_fmap, Hr'. simpl. by rewrite <- Heq.
      - by rewrite list_lookup_fmap, Hc. }
    simpl. unfold Client.set_priority, Client.set_status. simpl.
    unfold identity in Hid. destruct c, c0. simpl in *.
    destruct (decide _); simplify_eq; done.
  - destruct (decide (Client.id c ∈ run_id <$> ws)) as [Hin|Hnotin];
      destruct (decide (Client.id c ∈ (run_id <$> ws) ++ [run_id w]))
        as [Hin'|Hnotin']; try done.
    + exfalso. apply Hnotin'. rewrite elem_of_app. by left.
    + exfalso. apply elem_of_app in Hin' as [?|Hin']; [done|].
      by apply list_elem_of_singleton in Hin'.
Qed.

Lemma commit_length (db : list Client.t) (ws : list run) :
  length (commit db ws) = length db.
Proof.
  unfold commit. induction ws as [|w ws IH] using rev_ind; [done|].
  rewrite foldl_app. simpl. unfold db_update at 1. by rewrite length_fmap.
Qed.

(** With unique ids the transaction leaves the table equal to the array
    the reordering made. *)
Lemma commit_reorder db t client status priority :
  NoDup (Client.id <$> db) →
  commit db
    (updates (reorder db t client status priority).1
       (reorder db t client status priority).2)
  = (reorder db t client status priority).1.
Proof.
  intros Hnd.
  pose proof (reorder_identity db t client status priority) as Hident.
  pose proof (reorder_length db t client status priority) as Hlen.
  set (h := (reorder db t client status priority).1) in *.
  set (u := (reorder db t client status priority).2) in *.
  assert (NoDup (Client.id <$> h)) as Hndh.
  { replace (Client.id <$> h) with (Client.id <$> db); [done|].
    symmetry. apply ids_eq; [done|]. apply reorder_id. }
  pose proof (commit_length db (updates h u)) as Hlenc.
  apply list_eq. intros r.
  destruct (h !! r) as [c|] eqn:Hc.
  2:{ apply lookup_ge_None in Hc. apply lookup_ge_None. lia. }
  destruct (db !! r) as [c0|] eqn:Hc0.
  2:{ apply lookup_ge_None in Hc0. apply lookup_lt_Some in Hc. lia. }
  assert (identity c0 = identity c) as Hid.
  { apply (f_equal (λ l, l !! r)) in Hident.
    rewrite !list_lookup_fmap, Hc, Hc0 in Hident. simpl in Hident.
    congruence. }
  rewrite (commit_lookup db h (updates h u) r c0 c); try done.
  2:{ intros w (r' & c' & _ & Hr' & ->)%updates_elem_of.
      exists c'. split; [|done]. by eapply list_elem_of_lookup_2. }
  f_equal. destruct (decide _) as [Hin|Hnotin]; [done|].
  destruct (reorder_covers db t client status priority r) as [Hu|Hsame].
  - exfalso. apply Hnotin. apply list_elem_of_fmap.
    exists (row_of c). split; [done|].
    apply updates_elem_of. by exists r, c.
  - fold h in Hsame. congruence.
Qed.

(** The array is sent only for a known client and a status that passes the
    check, and then it is the only response. *)
Lemma put_client_sent_inv db rq cs :
  Response 200 (Clients cs) ∈ sent (put_client db rq) →
  ∃ i t client,
    rq = Request (Some i) (req_status rq) (req_priority rq)
    ∧ list_find (λ c, Client.id c = i) db = Some (t, client)
    ∧ truthy_status (req_status rq)
      && negb (includes validStatuses (req_status rq)) = false
    ∧ cs = (reorder db t client (req_status rq) (req_priority rq)).1.
Proof.
  intros Hin.
  destruct (put_client_sent_clients db rq cs Hin)
    as (i & t & client & Hi & Hfind & ->).
  exists i, t, client. destruct rq as [id status priority]. simpl in *.
  subst id. split; [done|]. split; [done|]. split; [|done].
  destruct (truthy_status status && _) eqn:Hcheck; [|done].
  exfalso. revert Hin. unfold put_client, validateId, db_get. simpl.
  rewrite Hfind, Hcheck. simpl.
  rewrite list_elem_of_singleton. congruence.
Qed.

(** X1.  The list the update handler sends holds, position by position, the
    id, the name and the description of the clients of the table: the
    update assigns [status] and [priority] only. *)
Theorem update_keeps_identity db rq cs :
  Response 200 (Clients cs) ∈ sent (put_client db rq) →
  identity <$> cs = identity <$> db.
Proof.
  intros (i & t & client & _ & _ & ->)%put_client_sent_clients.
  apply reorder_identity.
Qed.

Lemma update_keeps_identity_witness :
  identity <$> board_A_to_in_progress_3 = identity <$> board.
Proof.
  apply (update_keeps_identity board
           (Request (Some 1) (Some "in-progress"%string) None)).
  vm_compute. left.
Defined.

(** X2.  With unique ids, the table after the statements of the transaction
    is the list the handler sends: every object the reordering changed is
    written, and each statement reaches the one row of its object. *)
Theorem transaction_stores_list_sent db rq cs :
  NoDup (Client.id <$> db) →
  Response 200 (Clients cs) ∈ sent (put_client db rq) →
  commit db (writes (put_client db rq)) = cs.
Proof.
  intros Hnd (i & t & client & Hrq & Hfind & Hcheck & ->)%put_client_sent_inv.
  rewrite Hrq, (put_client_found db i t client) by done. simpl.
  by apply commit_reorder.
Qed.

Lemma transaction_stores_list_sent_witness :
  commit board
    (writes (put_client board
               (Request (Some 1) (Some "in-progress"%string) None)))
  = board_A_to_in_progress_3.
Proof.
  apply transaction_stores_list_sent.
  - apply (bool_decide_unpack _). vm_compute. exact I.
  - vm_compute. left.
Defined.

(** ** Valid and invalid ids *)

Lemma validateId_valid db id :
  valid (validateId db id) = true
  ↔ ∃ i, id = Some i ∧ is_Some (list_find (λ c, Client.id c = i) db).
Proof.
  unfold validateId, db_get. destruct id as [i|]; simpl.
  - destruct (list_find _ db) as [[t c]|] eqn:Hfind; simpl; split.
    + intros _. exists i. split; [done|]. by rewrite Hfind.
    + done.
    + done.
    + intros (i' & Hi & [x Hx]). simplify_eq.
  - split; [done|]. intros (i & Hi & _). done.
Qed.

(** X3.  [validateId] accepts exactly the ids that a client of the table
    has; it carries a message exactly when it rejects. *)
Theorem validateId_accepts_ids_of_table db id :
  (valid (validateId db id) = true
   ↔ ∃ i, id = Some i ∧ i ∈ Client.id <$> db)
  ∧ (v_message (validateId db id) = None
     ↔ valid (validateId db id) = true).
Proof.
  split.
  - rewrite validateId_valid. split.
    + intros (i & -> & [[t c] Hfind]). exists i. split; [done|].
      apply list_find_Some in Hfind as (Hc & <- & _).
      apply list_elem_of_fmap. exists c. split; [done|].
      by eapply list_elem_of_lookup_2.
    + intros (i & -> & (c & -> & Hc)%list_elem_of_fmap).
      exists (Client.id c). split; [done|].
      by apply (list_find_elem_of (λ c', Client.id c' = Client.id c) db c).
  - unfold validateId. destruct id as [i|]; simpl; [|done].
    by destruct (db_get db i).
Qed.

(** X4.  For an id that a client of the table has, the update handler
    never throws and sends exactly one response: the response 400 "Invalid
    status provided", with no statement run, when the status is not empty
    and none of the three; the response 200 with a list as long as the
    table otherwise. *)
Theorem known_id_one_response db rq :
  valid (validateId db (req_id rq)) = true →
  finished (put_client db rq) = Returned
  ∧ if truthy_status (req_status rq)
       && negb (includes validStatuses (req_status rq))
    then sent (put_client db rq) = [Response 400 (Message invalidStatus)]
         ∧ writes (put_client db rq) = []
    else ∃ cs, sent (put_client db rq) = [Response 200 (Clients cs)]
               ∧ length cs = length db.
Proof.
  intros (i & Hid & [[t client] Hfind])%validateId_valid.
  destruct rq as [id status priority]. simpl in *. subst id.
  destruct (truthy_status status && _) eqn:Hcheck.
  - unfold put_client, validateId, db_get. simpl.
    rewrite Hfind. simpl. by rewrite Hcheck.
  - rewrite (put_client_found db i t client) by done. simpl.
    split; [done|]. eexists. split; [done|]. apply reorder_length.
Qed.

Lemma known_id_one_response_witness :
  finished (put_client board (Request (Some 1) (Some "done"%string) None))
  = Returned
  ∧ if truthy_status (Some "done"%string)
       && negb (includes validStatuses (Some "done"%string))
    then sent (put_client board (Request (Some 1) (Some "done"%string) None))
         = [Response 400 (Message invalidStatus)]
         ∧ writes (put_client board
                     (Request (Some 1) (Some "done"%string) None)) = []
    else ∃ cs,
        sent (put_client board (Request (Some 1) (Some "done"%string) None))
        = [Response 200 (Clients cs)]
        ∧ length cs = length board.
Proof.
  apply (known_id_one_response board
           (Request (Some 1) (Some "done"%string) None)).
  reflexivity.
Defined.

(** X5.  For an id that is not a number or that no client of the table has,
    the update handler runs no statement and sends one response only, the
    400 "Invalid id provided.", never a list of clients; it does not stop
    there and ends by throwing: [ERR_HTTP_HEADERS_SENT] at the second
    [send] when the status fails the check, a [TypeError] at
    [client.status] when it passes. *)
Theorem invalid_id_never_writes db rq :
  valid (validateId db (req_id rq)) = false →
  writes (put_client db rq) = []
  ∧ (∀ cs, Response 200 (Clients cs) ∉ sent (put_client db rq))
  ∧ (∃ m,
       sent (put_client db rq) = [Response 400 (Message m)]
       ∧ message m = "Invalid id provided."%string)
  ∧ finished (put_client db rq)
    = if truthy_status (req_status rq)
         && negb (includes validStatuses (req_status rq))
      then ThrewHeadersSent else ThrewTypeError.
Proof.
  intros Hinvalid.
  destruct rq as [id status priority]. simpl in *.
  assert (id ≫= (λ i, list_find (λ c, Client.id c = i) db) = None) as Hfind.
  { destruct id as [i|]; [|done]. simpl.
    destruct (list_find _ db) as [x|] eqn:Hx; [|done].
    exfalso. apply not_true_iff_false in Hinvalid. apply Hinvalid.
    apply validateId_valid. exists i. split; [done|]. by rewrite Hx. }
  assert (∃ m, v_message (validateId db id) = Some m
               ∧ message m = "Invalid id provided."%string) as (m & Hm & Hmsg).
  { revert Hinvalid. unfold validateId. destruct id as [i|]; simpl.
    - destruct (db_get db i); [done|]. intros _. by eexists.
    - intros _. by eexists. }
  unfold put_client. simpl. rewrite Hinvalid, Hm, Hfind. simpl.
  destruct (truthy_status status && _); simpl;
    (split; [done|]); (split; [|split; [by exists m|done]]);
    intros cs Hin; by apply list_elem_of_singleton in Hin.
Qed.

Lemma invalid_id_never_writes_witness :
  writes (put_client board (Request None (Some "done"%string) (Some 2))) = []
  ∧ (∀ cs,
       Response 200 (Clients cs)
       ∉ sent (put_client board (Request None (Some "done"%string) (Some 2))))
  ∧ (∃ m,
       sent (put_client board (Request None (Some "done"%string) (Some 2)))
       = [Response 400 (Message m)]
       ∧ message m = "Invalid id provided."%string)
  ∧ finished (put_client board (Request None (Some "done"%string) (Some 2)))
    = if truthy_status (Some "done"%string)
         && negb (includes validStatuses (Some "done"%string))
      then ThrewHeadersSent else ThrewTypeError.
Proof.
  apply (invalid_id_never_writes board
           (Request None (Some "done"%string) (Some 2))).
  reflexivity.
Defined.

(** X6.  The priority 0 is falsy: a request that carries the priority 0 is
    handled as the same request without a priority, whatever the table, the
    id and the status. *)
Theorem priority_zero_is_omitted db id status :
  put_client db (Request id status (Some 0))
  = put_client db (Request id status None).
Proof.
  unfold put_client. simpl.
  destruct (truthy_status status && _); [done|].
  destruct (id ≫= _) as [[t client]|]; [|done].
  assert (reorder db t client status (Some 0)
          = reorder db t client status None) as ->; [|done].
  unfold reorder. simpl. by rewrite !andb_false_r.
Qed.

(** ** The same lane *)

(** X7.  A request that keeps the current status of a known client and
    carries a priority other than 0 and other than the current one: the
    list sent is the table with the priority of the target set to 1,
    whatever the priority requested; no other client is renumbered. *)
Theorem same_lane_move_sets_priority_one db i t client s p :
  list_find (λ c, Client.id c = i) db = Some (t, client) →
  s ∈ validStatuses →
  Client.status client = Some s →
  p ≠ 0 →
  ¬ (Client.priority client == inject_Z p)%Q →
  sent (put_client db (Request (Some i) (Some s) (Some p)))
  = [Response 200 (Clients (<[t := Client.set_priority 1 client]> db))]
  ∧ ∀ r, r ≠ t →
      (<[t := Client.set_priority 1 client]> db) !! r = db !! r.
Proof.
  intros Hfind Hs Hsame Hp Hdiff. split; [by apply same_lane_result|].
  intros r Hne. by rewrite list_lookup_insert_ne.
Qed.

Lemma same_lane_move_sets_priority_one_witness :
  sent (put_client board (Request (Some 3) (Some "in-progress"%string) (Some 1)))
  = [Response 200
       (Clients (<[2%nat := Client.set_priority 1 (mk 3 "Y" "in-progress" 2)]>
                   board))]
  ∧ ∀ r, r ≠ 2%nat →
      (<[2%nat := Client.set_priority 1 (mk 3 "Y" "in-progress" 2)]> board) !! r
      = board !! r.
Proof.
  apply (same_lane_move_sets_priority_one board 3 2%nat
           (mk 3 "Y" "in-progress" 2) "in-progress" 1).
  - reflexivity.
  - apply (bool_decide_unpack _). vm_compute. exact I.
  - reflexivity.
  - lia.
  - vm_compute. discriminate.
Defined.

(** ** A change of lane keeps the numbering dense *)

Section other_lanes.
Variables (clients : heap) (t : ref) (client : Client.t).
Variables (status : option string) (priority : option Z).
Hypothesis Ht : clients !! t = Some client.
Hypothesis Hs : Client.status client ≠ status.
Hypothesis Hids : NoDup (Client.id <$> clients).

Abbreviation cs := (changed clients t client status priority).

Lemma other_lane_after s' :
  s' ≠ Client.status client → s' ≠ status → lane cs s' = lane clients s'.
Proof.
  intros Ho Hn. unfold lane. rewrite changed_length by done.
  apply list_filter_iff. intros r. rewrite changed_status by done.
  destruct (decide (r = t)) as [->|Hne]; [|done].
  rewrite (target_status clients t client Ht). split; congruence.
Qed.

Lemma other_lane_members s' r :
  s' ≠ Client.status client → s' ≠ status →
  r ∈ lane clients s' → cs !! r = clients !! r.
Proof.
  intros Ho Hn [Hlt Hr]%elem_of_lane. apply changed_frame; [done..| | |].
  - unfold old_members. rewrite list_elem_of_filter, elem_of_lane.
    intros (_ & _ & Heq). congruence.
  - unfold new_members. rewrite elem_of_lane. intros [_ Heq]. congruence.
  - intros ->. rewrite (target_status clients t client Ht) in Hr. congruence.
Qed.

Lemma other_lane_dense s' :
  s' ≠ Client.status client → s' ≠ status →
  dense_lane clients s' → dense_lane cs s'.
Proof.
  intros Ho Hn Hdense. unfold dense_lane.
  rewrite other_lane_after by done.
  replace (priority_of cs <$> lane clients s')
    with (priority_of clients <$> lane clients s'); [done|].
  apply list_fmap_ext. intros k r Hk. unfold priority_of.
  rewrite (other_lane_members s' r); [done..|].
  by eapply list_elem_of_lookup_2.
Qed.
End other_lanes.

(** X8.  A change of lane of a known client to a valid status, with any
    priority or none, on a table with unique ids: the old lane loses the
    target only, its members keep their order and it is densely numbered;
    the new lane is densely numbered; every other lane holds the same
    clients unchanged.  So every lane that was densely numbered still is,
    and the two affected lanes are densely numbered even if they were
    not. *)
Theorem lane_change_keeps_lanes_dense db i t client s priority :
  NoDup (Client.id <$> db) →
  list_find (λ c, Client.id c = i) db = Some (t, client) →
  s ∈ validStatuses →
  Client.status client ≠ Some s →
  ∃ cs,
    sent (put_client db (Request (Some i) (Some s) priority))
    = [Response 200 (Clients cs)]
    ∧ lane cs (Client.status client)
      = filter (λ r, r ≠ t) (lane db (Client.status client))
    ∧ keeps_order db cs (lane cs (Client.status client))
    ∧ dense_lane cs (Client.status client)
    ∧ dense_lane cs (Some s)
    ∧ (∀ s', s' ≠ Client.status client → s' ≠ Some s →
         lane cs s' = lane db s'
         ∧ ∀ r, r ∈ lane db s' → cs !! r = db !! r)
    ∧ (∀ s', s' = Client.status client ∨ s' = Some s ∨ dense_lane db s' →
         dense_lane cs s').
Proof.
  intros Hids Hfind Hs Hdiff.
  exists (changed db t client (Some s) priority).
  pose proof (find_lookup _ _ _ _ Hfind) as [Ht _].
  pose proof (old_lane_after db t client (Some s) priority Ht Hdiff Hids)
    as Hold.
  split; [by apply lane_change_sent|].
  split; [done|].
  split; [rewrite Hold; by apply keeps_order_old|].
  split; [by apply dense_old_after|].
  split; [by apply dense_new_after|].
  split.
  - intros s' Ho Hn. split; [by apply other_lane_after|].
    intros r Hr. by apply (other_lane_members db t client (Some s)) with s'.
  - intros s' Hcases.
    destruct (decide (s' = Client.status client)) as [->|Ho];
      [by apply dense_old_after|].
    destruct (decide (s' = Some s)) as [->|Hn]; [by apply dense_new_after|].
    apply other_lane_dense; try done. tauto.
Qed.

Lemma lane_change_keeps_lanes_dense_witness :
  ∃ cs,
    sent (put_client board
            (Request (Some 2) (Some "complete"%string) (Some 1)))
    = [Response 200 (Clients cs)]
    ∧ lane cs (Some "in-progress"%string)
      = filter (λ r, r ≠ 1%nat) (lane board (Some "in-progress"%string))
    ∧ keeps_order board cs (lane cs (Some "in-progress"%string))
    ∧ dense_lane cs (Some "in-progress"%string)
    ∧ dense_lane cs (Some "complete"%string)
    ∧ (∀ s', s' ≠ Some "in-progress"%string → s' ≠ Some "complete"%string →
         lane cs s' = lane board s'
         ∧ ∀ r, r ∈ lane board s' → cs !! r = board !! r)
    ∧ (∀ s', s' = Some "in-progress"%string ∨ s' = Some "complete"%string
             ∨ dense_lane board s' →
         dense_lane cs s').
Proof.
  apply (lane_change_keeps_lanes_dense board 2 1%nat
           (mk 2 "X" "in-progress" 1) "complete" (Some 1)).
  - apply (bool_decide_unpack _). vm_compute. exact I.
  - reflexivity.
  - apply (bool_decide_unpack _). vm_compute. exact I.
  - discriminate.
Defined.

(** ** A densely numbered lane, sorted *)

Lemma rank_le_antisymm : AntiSymm eq rank_le.
Proof.
  intros x y [Hxy|Hxy] [Hyx|Hyx]; try done. exfalso. lra.
Qed.

Lemma inject_Z_rank_le (a b : Z) :
  (inject_Z a <= inject_Z b)%Q → rank_le (inject_Z a) (inject_Z b).
Proof.
  rewrite <- Zle_Qle. intros Hle. unfold rank_le.
  destruct (decide (a = b)) as [->|Hne]; [by right|].
  left. rewrite <- Zlt_Qlt. lia.
Qed.

Lemma ranks_from_sorted n : ∀ j,
  StronglySorted rank_le ((λ k, inject_Z (Z.of_nat k)) <$> seq j n).
Proof.
  induction n as [|n IH]; intros j; simpl; [constructor|].
  constructor; [apply IH|].
  apply Forall_forall. intros q (k & -> & Hk)%list_elem_of_fmap.
  apply elem_of_seq in Hk. left. rewrite <- Zlt_Qlt. lia.
Qed.

Lemma keys_sorted (h : heap) (l : list ref) :
  StronglySorted (key_le h) l →
  Forall (λ r, ∃ z, priority_of h r = inject_Z z) l →
  StronglySorted rank_le (priority_of h <$> l).
Proof.
  induction 1 as [|x l Hl IH Hx]; intros Hint; simpl; [constructor|].
  apply Forall_cons in Hint as [[a Ha] Hint].
  constructor; [by apply IH|].
  apply Forall_forall. intros q (y & -> & Hy)%list_elem_of_fmap.
  rewrite Forall_forall in Hx, Hint.
  destruct (Hint y Hy) as [b Hb]. specialize (Hx y Hy).
  unfold key_le in Hx. rewrite Ha, Hb in *. by apply inject_Z_rank_le.
Qed.

(** The sorted array of a densely numbered lane holds the priorities
    1, 2, ..., n in this order. *)
Lemma sort_dense_lane (h : heap) s :
  dense_lane h s →
  priority_of h <$> sort h (lane h s) = ranks (length (lane h s)).
Proof.
  intros Hdense.
  apply (StronglySorted_unique rank_le (AntiSymm0 := rank_le_antisymm)).
  - apply keys_sorted; [apply sort_sorted|].
    apply Forall_forall. intros r Hr%sort_elem_of.
    destruct (dense_lane_bounds h s r Hdense Hr) as (k & Hk & _). by exists k.
  - apply ranks_from_sorted.
  - by rewrite sort_perm.
Qed.

Lemma sort_dense_lane_lookup (h : heap) s k r :
  dense_lane h s → sort h (lane h s) !! k = Some r →
  priority_of h r = inject_Z (Z.of_nat k + 1).
Proof.
  intros Hdense Hk.
  pose proof (f_equal (λ l, l !! k) (sort_dense_lane h s Hdense)) as Heq.
  simpl in Heq. unfold ranks in Heq.
  rewrite !list_lookup_fmap, Hk in Heq.
  rewrite lookup_seq_lt in Heq.
  2:{ apply lookup_lt_Some in Hk. by rewrite sort_length in Hk. }
  simpl in Heq. simplify_eq. rewrite Heq. f_equal. lia.
Qed.

(** In an array whose priorities are 1, 2, ... the objects that are not
    above the rank [p - 0.5] are the first [p - 1]. *)
Lemma filter_ranked (h : heap) (p : Z) (l : list ref) : ∀ off,
  1 ≤ p →
  (∀ k r, l !! k = Some r →
     priority_of h r = inject_Z (Z.of_nat (off + k) + 1)) →
  filter (λ y, priority_of h y <= inject_Z p - (1 # 2))%Q l
  = take (Z.to_nat (p - 1) - off) l
  ∧ filter (λ y, inject_Z p - (1 # 2) < priority_of h y)%Q l
    = drop (Z.to_nat (p - 1) - off) l.
Proof.
  induction l as [|y l IH]; intros off Hp Hkeys.
  { by rewrite take_nil, drop_nil. }
  pose proof (Hkeys 0%nat y eq_refl) as Hy. rewrite Nat.add_0_r in Hy.
  destruct (IH (S off) Hp) as [IHt IHd].
  { intros k r Hk. rewrite (Hkeys (S k) r Hk). do 2 f_equal. lia. }
  rewrite !filter_cons, IHt, IHd, Hy.
  destruct (decide (Z.of_nat off + 1 < p)) as [Hlt|Hge].
  - rewrite decide_True by (apply minus_half_above; lia).
    rewrite decide_False.
    2:{ rewrite minus_half_below. lia. }
    replace (Z.to_nat (p - 1) - off)%nat
      with (S (Z.to_nat (p - 1) - S off)) by lia.
    done.
  - rewrite decide_False by (rewrite minus_half_above; lia).
    rewrite decide_True by (apply minus_half_below; lia).
    replace (Z.to_nat (p - 1) - off)%nat with 0%nat by lia.
    replace (Z.to_nat (p - 1) - S off)%nat with 0%nat by lia.
    by rewrite take_0, drop_0.
Qed.

Lemma lane_length_le (h : heap) s : (length (lane h s) ≤ length h)%nat.
Proof.
  unfold lane. etransitivity; [apply length_filter|]. by rewrite length_seq.
Qed.

(** X9.  A change of lane to a densely numbered lane of [m] members with a
    requested priority [p] between 1 and [m + 1], on a table that an array
    holds: the target becomes the [p]-th client of the lane, the members
    that held a priority below [p] keep it, and the members that held [p]
    or more move down by one. *)
Theorem lane_change_makes_target_pth db i t client s p :
  fits_array db →
  NoDup (Client.id <$> db) →
  list_find (λ c, Client.id c = i) db = Some (t, client) →
  s ∈ validStatuses →
  Client.status client ≠ Some s →
  dense_lane db (Some s) →
  1 ≤ p ≤ Z.of_nat (length (lane db (Some s))) + 1 →
  ∃ cs,
    sent (put_client db (Request (Some i) (Some s) (Some p)))
    = [Response 200 (Clients cs)]
    ∧ status_of cs t = Some s
    ∧ priority_of cs t = inject_Z p
    ∧ ∀ r q, r ∈ lane db (Some s) → priority_of db r = inject_Z q →
        priority_of cs r = inject_Z (shifted p q).
Proof.
  intros Hfits Hids Hfind Hs Hdiff Hdense Hp.
  exists (changed db t client (Some s) (Some p)).
  pose proof (find_lookup _ _ _ _ Hfind) as [Ht _].
  assert (half_is_exact p = true) as Hexact.
  { apply half_is_exact_spec. unfold fits_array in Hfits.
    pose proof (lane_length_le db (Some s)). lia. }
  set (n := Z.to_nat (p - 1)).
  set (S := sort db (lane db (Some s))).
  assert (before_target db (Some s) (Some p) = take n S
          ∧ after_target db (Some s) (Some p) = drop n S) as [Hfront Hback].
  { unfold before_target, after_target, new_members.
    rewrite target_rank_truthy by (done || lia). fold S.
    destruct (filter_ranked db p S 0) as [Ht' Hd']; [lia| |].
    - intros k r Hk. by apply (sort_dense_lane_lookup db (Some s)).
    - rewrite Nat.sub_0_r in Ht', Hd'. done. }
  assert (length S = length (lane db (Some s))) as HlenS
    by apply sort_length.
  split; [by apply lane_change_sent|].
  split; [by rewrite changed_status, decide_True|].
  split.
  { rewrite (target_priority db t client (Some s) (Some p) Ht Hdiff Hids).
    rewrite Hfront, length_take. f_equal. lia. }
  intros r q Hr Hq.
  assert (r ∈ S) as [k Hk]%list_elem_of_lookup by (by apply sort_elem_of).
  assert (q = Z.of_nat k + 1) as ->.
  { rewrite (sort_dense_lane_lookup db (Some s) k r Hdense Hk) in Hq.
    apply (f_equal Qnum) in Hq. simpl in Hq. lia. }
  unfold shifted. destruct (Z.of_nat k + 1 <? p) eqn:Hcmp.
  - apply Z.ltb_lt in Hcmp.
    apply (changed_new db t client (Some s) (Some p)); [done..|].
    rewrite (new_sorted_split db t client (Some s) (Some p) Ht Hdiff).
    apply lookup_app_l_Some.
    rewrite Hfront, lookup_take_lt by lia. done.
  - apply Z.ltb_ge in Hcmp.
    rewrite (below_lookup db t client (Some s) (Some p) Ht Hdiff Hids
               (k - n) r).
    + rewrite Hfront, length_take. f_equal. lia.
    + rewrite Hback, lookup_drop. rewrite <- Hk. f_equal. lia.
Qed.

Lemma lane_change_makes_target_pth_witness :
  ∃ cs,
    sent (put_client board
            (Request (Some 1) (Some "in-progress"%string) (Some 2)))
    = [Response 200 (Clients cs)]
    ∧ status_of cs 0%nat = Some "in-progress"%string
    ∧ priority_of cs 0%nat = inject_Z 2
    ∧ ∀ r q, r ∈ lane board (Some "in-progress"%string) →
        priority_of board r = inject_Z q →
        priority_of cs r = inject_Z (shifted 2 q).
Proof.
  apply (lane_change_makes_target_pth board 1 0%nat (mk 1 "A" "backlog" 1)).
  - reflexivity.
  - apply (bool_decide_unpack _). vm_compute. exact I.
  - reflexivity.
  - apply (bool_decide_unpack _). vm_compute. exact I.
  - discriminate.
  - vm_compute. reflexivity.
  - vm_compute. split; discriminate.
Defined.

(** ** The listing by status *)

(** The clients the listing selects are the objects of the lane, in the
    order of the table. *)
Lemma db_with_status_lane (db : list Client.t) s :
  Some <$> db_with_status db s = (λ r, db !! r) <$> lane db (Some s).
Proof.
  induction db as [|c db IH] using rev_ind; [done|].
  unfold db_with_status, lane in *.
  rewrite length_app. simpl. rewrite Nat.add_1_r, seq_S. simpl.
  rewrite !filter_app, !fmap_app.
  assert (filter (λ r, status_of (db ++ [c]) r = Some s) (seq 0 (length db))
          = filter (λ r, status_of db r = Some s) (seq 0 (length db))) as ->.
  { apply filter_ext_in. apply Forall_forall. intros r Hr%elem_of_seq.
    unfold status_of. by rewrite lookup_app_l by lia. }
  f_equal.
  - rewrite IH. apply list_fmap_ext. intros k r Hk.
    apply list_elem_of_lookup_2, list_elem_of_filter in Hk as [_ Hr].
    apply elem_of_seq in Hr. by rewrite lookup_app_l by lia.
  - rewrite !filter_cons, !filter_nil. unfold status_of.
    rewrite list_lookup_middle by done. simpl.
    destruct (decide (Client.status c = Some s)); simpl; [|done].
    by rewrite list_lookup_middle.
Qed.

Lemma db_with_status_priorities (db : list Client.t) s :
  Client.priority <$> db_with_status db s = priority_of db <$> lane db (Some s).
Proof.
  pose proof (f_equal (fmap (from_option Client.priority 0%Q))
                (db_with_status_lane db s)) as Heq.
  rewrite <- !list_fmap_compose in Heq. exact Heq.
Qed.

Lemma db_with_status_length (db : list Client.t) s :
  length (db_with_status db s) = length (lane db (Some s)).
Proof.
  pose proof (f_equal length (db_with_status_lane db s)) as Heq.
  by rewrite !length_fmap in Heq.
Qed.

Lemma get_clients_valid db s :
  s ∈ validStatuses →
  get_clients db (Some s) = Response 200 (Clients (db_with_status db s)).
Proof.
  intros Hs. unfold validStatuses in Hs.
  repeat (apply elem_of_cons in Hs as [->|Hs]; [done|]).
  by apply elem_of_nil in Hs.
Qed.

(** X10.  The listing for one of the three statuses answers 200 with the
    clients of the table that have this status, all of them and no other,
    in the order of the table; they are the members of the lane that the
    update handler works on, with their priorities. *)
Theorem listing_is_the_lane db s :
  s ∈ validStatuses →
  ∃ l,
    get_clients db (Some s) = Response 200 (Clients l)
    ∧ (∀ c, c ∈ l ↔ c ∈ db ∧ Client.status c = Some s)
    ∧ l `sublist_of` db
    ∧ Some <$> l = (λ r, db !! r) <$> lane db (Some s)
    ∧ Client.priority <$> l = priority_of db <$> lane db (Some s).
Proof.
  intros Hs. exists (db_with_status db s).
  split; [by apply get_clients_valid|].
  split; [|split; [apply sublist_filter|]].
  - intros c. unfold db_with_status. rewrite list_elem_of_filter. tauto.
  - split; [apply db_with_status_lane|apply db_with_status_priorities].
Qed.

Lemma listing_is_the_lane_witness :
  ∃ l,
    get_clients board (Some "in-progress"%string) = Response 200 (Clients l)
    ∧ (∀ c, c ∈ l ↔ c ∈ board ∧ Client.status c = Some "in-progress"%string)
    ∧ l `sublist_of` board
    ∧ Some <$> l
      = (λ r, board !! r) <$> lane board (Some "in-progress"%string)
    ∧ Client.priority <$> l
      = priority_of board <$> lane board (Some "in-progress"%string).
Proof.
  apply listing_is_the_lane.
  apply (bool_decide_unpack _). vm_compute. exact I.
Defined.

(** X11.  When every client of the table has one of the three statuses, the
    three listings together hold every client of the table exactly once. *)
Theorem listings_partition_the_table db :
  Forall (λ c, ∃ s, s ∈ validStatuses ∧ Client.status c = Some s) db →
  ∃ b p c,
    get_clients db (Some "backlog"%string) = Response 200 (Clients b)
    ∧ get_clients db (Some "in-progress"%string) = Response 200 (Clients p)
    ∧ get_clients db (Some "complete"%string) = Response 200 (Clients c)
    ∧ b ++ p ++ c ≡ₚ db.
Proof.
  intros Hall.
  exists (db_with_status db "backlog"), (db_with_status db "in-progress"),
    (db_with_status db "complete").
  split; [done|]. split; [done|]. split; [done|].
  unfold db_with_status.
  induction Hall as [|x db (s & Hs & Hx) Hall IH]; [done|].
  rewrite !filter_cons, Hx. unfold validStatuses in Hs.
  apply elem_of_cons in Hs as [->|Hs].
  { repeat case_decide; try discriminate; try done. simpl. by f_equiv. }
  apply elem_of_cons in Hs as [->|Hs].
  { repeat case_decide; try discriminate; try done. simpl.
    rewrite <- Permutation_middle. by f_equiv. }
  apply list_elem_of_singleton in Hs as ->.
  repeat case_decide; try discriminate; try done.
  rewrite app_assoc, <- Permutation_middle, <- app_assoc. by f_equiv.
Qed.

Lemma listings_partition_the_table_witness :
  ∃ b p c,
    get_clients board (Some "backlog"%string) = Response 200 (Clients b)
    ∧ get_clients board (Some "in-progress"%string) = Response 200 (Clients p)
    ∧ get_clients board (Some "complete"%string) = Response 200 (Clients c)
    ∧ b ++ p ++ c ≡ₚ board.
Proof.
  apply listings_partition_the_table.
  repeat constructor; eexists; (split; [|reflexivity]);
    apply (bool_decide_unpack _); vm_compute; exact I.
Defined.

(** X12.  The listing rejects a status exactly when the update handler's
    check of the status rejects it: when it is not empty and none of the
    three.  Without a status, or with the empty string, the listing answers
    200 with the whole table. *)
Theorem listing_rejects_as_the_update db status :
  (get_clients db status = Response 400 (Message invalidStatusQuery)
   ↔ truthy_status status && negb (includes validStatuses status) = true)
  ∧ (truthy_status status = false →
     get_clients db status = Response 200 (Clients db))
  ∧ (code (get_clients db status) = 400 ∨ code (get_clients db status) = 200).
Proof.
  unfold get_clients. destruct status as [s|]; simpl.
  2:{ split; [split; done|]. split; [done|by right]. }
  destruct (bool_decide (s = EmptyString)) eqn:Hempty; simpl.
  { split; [split; done|]. split; [done|by right]. }
  assert (bool_decide (s ∈ validStatuses)
          = negb (negb (bool_decide (s = "backlog"%string))
                  && negb (bool_decide (s = "in-progress"%string))
                  && negb (bool_decide (s = "complete"%string)))) as ->.
  { destruct (decide (s = "backlog"%string)) as [->|H1]; [done|].
    destruct (decide (s = "in-progress"%string)) as [->|H2]; [done|].
    destruct (decide (s = "complete"%string)) as [->|H3]; [done|].
    rewrite !(bool_decide_false (s = _)) by done.
    apply bool_decide_false. unfold validStatuses.
    rewrite !elem_of_cons, elem_of_nil. tauto. }
  destruct (bool_decide (s = "backlog"%string)),
    (bool_decide (s = "in-progress"%string)),
    (bool_decide (s = "complete"%string)); simpl;
    (split; [split; done|]); (split; [done|]); auto.
Qed.

(** ** The lookup by id *)

(** X13.  The lookup of an id that a client of the table has sends one
    response: 200 with the first client of the table that has the id, the
    only one when ids are unique. *)
Theorem lookup_of_known_id db i :
  i ∈ Client.id <$> db →
  ∃ t c,
    get_client db (Some i) = [ItemResponse 200 (Item (Some c))]
    ∧ db !! t = Some c
    ∧ Client.id c = i
    ∧ (∀ j c', db !! j = Some c' → (j < t)%nat → Client.id c' ≠ i)
    ∧ (NoDup (Client.id <$> db) → ∀ c', c' ∈ db → Client.id c' = i → c' = c).
Proof.
  intros (c0 & -> & Hc0)%list_elem_of_fmap.
  destruct (list_find_elem_of (λ c', Client.id c' = Client.id c0) db c0)
    as [[t c] Hfind]; [done..|].
  pose proof Hfind as (Ht & Hid & Hfirst)%list_find_Some.
  exists t, c. split.
  { unfold get_client, validateId, db_get. simpl. by rewrite Hfind. }
  split; [done|]. split; [done|]. split; [done|].
  intros Hnd c' [j Hj]%list_elem_of_lookup Hid'.
  assert (j = t) as ->; [|congruence].
  eapply (NoDup_lookup (Client.id <$> db)); [done|..].
  - rewrite list_lookup_fmap, Hj. simpl. by rewrite Hid'.
  - rewrite list_lookup_fmap, Ht. simpl. by rewrite Hid.
Qed.

Lemma lookup_of_known_id_witness :
  ∃ t c,
    get_client board (Some 3) = [ItemResponse 200 (Item (Some c))]
    ∧ board !! t = Some c
    ∧ Client.id c = 3
    ∧ (∀ j c', board !! j = Some c' → (j < t)%nat → Client.id c' ≠ 3)
    ∧ (NoDup (Client.id <$> board) →
       ∀ c', c' ∈ board → Client.id c' = 3 → c' = c).
Proof.
  apply lookup_of_known_id.
  apply (bool_decide_unpack _). vm_compute. exact I.
Defined.

(** X14.  The lookup of an id that is not a number or that no client of
    the table has sends the response 400 "Invalid id provided." and goes
    on to send a second response, 200 with no client. *)
Theorem lookup_of_invalid_id_sends_twice db id :
  valid (validateId db id) = false →
  ∃ m,
    get_client db id
    = [ItemResponse 400 (ItemMessage m); ItemResponse 200 (Item None)]
    ∧ message m = "Invalid id provided."%string.
Proof.
  unfold get_client, validateId. destruct id as [i|]; simpl.
  - destruct (db_get db i) eqn:Hget; simpl; [done|]. intros _.
    by eexists.
  - intros _. by eexists.
Qed.

Lemma lookup_of_invalid_id_sends_twice_witness :
  ∃ m,
    get_client board (Some 7)
    = [ItemResponse 400 (ItemMessage m); ItemResponse 200 (Item None)]
    ∧ message m = "Invalid id provided."%string.
Proof. apply lookup_of_invalid_id_sends_twice. reflexivity. Defined.

(** ** The update, then a listing or a lookup *)

(** [clients.find] looks at the ids only. *)
Lemma find_same_ids (db cs : list Client.t) i t c :
  Client.id <$> cs = Client.id <$> db →
  list_find (λ c, Client.id c = i) db = Some (t, c) →
  ∃ c', list_find (λ c, Client.id c = i) cs = Some (t, c')
        ∧ cs !! t = Some c'.
Proof.
  intros Hids Hfind.
  pose proof (list_find_fmap Client.id (λ z, z = i) db) as Hdb.
  pose proof (list_find_fmap Client.id (λ z, z = i) cs) as Hcs.
  rewrite Hids, Hdb in Hcs. unfold compose in Hcs. rewrite Hfind in Hcs.
  destruct (list_find (λ c, Client.id c = i) cs) as [[t' c']|] eqn:Hfind';
    simpl in Hcs; [|done].
  injection Hcs as Ht _. subst t'. exists c'. split; [done|].
  by apply list_find_Some in Hfind' as [? _].
Qed.

Section after_lane_change.
Variables (db : list Client.t) (i : Z) (t : ref) (client : Client.t).
Variables (s : string) (priority : option Z).
Hypothesis Hids : NoDup (Client.id <$> db).
Hypothesis Hfind : list_find (λ c, Client.id c = i) db = Some (t, client).
Hypothesis Hs : s ∈ validStatuses.
Hypothesis Hdiff : Client.status client ≠ Some s.

Abbreviation rq := (Request (Some i) (Some s) priority).
Abbreviation cs := (changed db t client (Some s) priority).

Lemma table_after_lane_change : commit db (writes (put_client db rq)) = cs.
Proof.
  rewrite (put_client_found db i t client); [|done|by apply valid_status_passes].
  simpl. by apply commit_reorder.
Qed.

Lemma target_after_lane_change :
  ∃ c', list_find (λ c, Client.id c = i) cs = Some (t, c')
        ∧ cs !! t = Some c'
        ∧ Client.status c' = Some s
        ∧ identity c' = identity client.
Proof.
  pose proof (find_lookup _ _ _ _ Hfind) as [Ht Hid].
  destruct (find_same_ids db cs i t client) as (c' & Hfind' & Ht'); [|done|].
  { by apply changed_ids. }
  exists c'. split; [done|]. split; [done|]. split.
  - pose proof (changed_status db t client (Some s) priority Ht Hdiff Hids t)
      as Hst.
    unfold status_of in Hst. rewrite Ht', decide_True in Hst by done. done.
  - pose proof (f_equal (λ l, l !! t)
                  (reorder_identity db t client (Some s) priority)) as Heq.
    simpl in Heq. fold cs in Heq.
    rewrite !list_lookup_fmap, Ht, Ht' in Heq. simpl in Heq. congruence.
Qed.

Lemma ids_after_lane_change : NoDup (Client.id <$> cs).
Proof.
  pose proof (find_lookup _ _ _ _ Hfind) as [Ht _].
  by rewrite changed_ids.
Qed.
End after_lane_change.

(** X15.  After a change of lane of a known client to a valid status, on a
    table with unique ids, the listing of the new status read from the
    table as the transaction left it holds the client, and its priorities
    are 1, 2, ..., n in some order; the listing of the old status no longer
    holds the client and is numbered in the same way. *)
Theorem listing_after_lane_change db i t client s priority :
  NoDup (Client.id <$> db) →
  list_find (λ c, Client.id c = i) db = Some (t, client) →
  s ∈ validStatuses →
  Client.status client ≠ Some s →
  let db' :=
    commit db (writes (put_client db (Request (Some i) (Some s) priority))) in
  (∃ l,
     get_clients db' (Some s) = Response 200 (Clients l)
     ∧ i ∈ Client.id <$> l
     ∧ Client.priority <$> l ≡ₚ ranks (length l))
  ∧ ∀ o, Client.status client = Some o → o ∈ validStatuses →
      ∃ l,
        get_clients db' (Some o) = Response 200 (Clients l)
        ∧ (i ∉ Client.id <$> l)
        ∧ Client.priority <$> l ≡ₚ ranks (length l).
Proof.
  intros Hids Hfind Hs Hdiff db'.
  pose proof (find_lookup _ _ _ _ Hfind) as [Ht Hid].
  assert (db' = changed db t client (Some s) priority) as ->.
  { by apply table_after_lane_change. }
  destruct (target_after_lane_change db i t client s priority)
    as (c' & Hfind' & Ht' & Hst & Hident); [done..|].
  split.
  - exists (db_with_status (changed db t client (Some s) priority) s).
    split; [by apply get_clients_valid|]. split.
    + apply list_elem_of_fmap. exists c'. split.
      * unfold identity in Hident. injection Hident as Hident _ _.
        congruence.
      * unfold db_with_status. apply list_elem_of_filter. split; [done|].
        by eapply list_elem_of_lookup_2.
    + rewrite db_with_status_priorities, db_with_status_length.
      by apply dense_new_after.
  - intros o Ho Hvalid.
    exists (db_with_status (changed db t client (Some s) priority) o).
    split; [by apply get_clients_valid|]. split.
    + intros (c'' & Hid'' & Hin)%list_elem_of_fmap.
      unfold db_with_status in Hin.
      apply list_elem_of_filter in Hin as [Hst'' [j Hj]%list_elem_of_lookup].
      assert (j = t) as ->.
      { apply (NoDup_lookup
                 (Client.id <$> changed db t client (Some s) priority) j t i).
        - by apply ids_after_lane_change with i.
        - rewrite list_lookup_fmap, Hj. simpl. congruence.
        - rewrite list_lookup_fmap, Ht'. simpl.
          unfold identity in Hident. injection Hident as Hident _ _.
          congruence. }
      congruence.
    + rewrite db_with_status_priorities, db_with_status_length.
      rewrite <- Ho. by apply dense_old_after.
Qed.

Lemma listing_after_lane_change_witness :
  let db' :=
    commit board
      (writes (put_client board
                 (Request (Some 2) (Some "complete"%string) (Some 1)))) in
  (∃ l,
     get_clients db' (Some "complete"%string) = Response 200 (Clients l)
     ∧ 2 ∈ Client.id <$> l
     ∧ Client.priority <$> l ≡ₚ ranks (length l))
  ∧ ∀ o, Some "in-progress"%string = Some o → o ∈ validStatuses →
      ∃ l,
        get_clients db' (Some o) = Response 200 (Clients l)
        ∧ (2 ∉ Client.id <$> l)
        ∧ Client.priority <$> l ≡ₚ ranks (length l).
Proof.
  apply (listing_after_lane_change board 2 1%nat (mk 2 "X" "in-progress" 1)
           "complete" (Some 1)).
  - apply (bool_decide_unpack _). vm_compute. exact I.
  - reflexivity.
  - apply (bool_decide_unpack _). vm_compute. exact I.
  - discriminate.
Defined.

(** X16.  After a change of lane of a known client to a valid status, on a
    table with unique ids, the lookup of the client's id in the table as
    the transaction left it sends one response, 200 with the client: its
    status is the requested one and its id, name and description are as
    before. *)
Theorem lookup_after_lane_change db i t client s priority :
  NoDup (Client.id <$> db) →
  list_find (λ c, Client.id c = i) db = Some (t, client) →
  s ∈ validStatuses →
  Client.status client ≠ Some s →
  ∃ c',
    get_client
      (commit db (writes (put_client db (Request (Some i) (Some s) priority))))
      (Some i)
    = [ItemResponse 200 (Item (Some c'))]
    ∧ Client.status c' = Some s
    ∧ identity c' = identity client.
Proof.
  intros Hids Hfind Hs Hdiff.
  rewrite (table_after_lane_change db i t client) by done.
  destruct (target_after_lane_change db i t client s priority)
    as (c' & Hfind' & Ht' & Hst & Hident); [done..|].
  exists c'. split; [|done].
  unfold get_client, validateId, db_get. simpl. by rewrite Hfind'.
Qed.

Lemma lookup_after_lane_change_witness :
  ∃ c',
    get_client
      (commit board
         (writes (put_client board
                    (Request (Some 2) (Some "complete"%string) (Some 1)))))
      (Some 2)
    = [ItemResponse 200 (Item (Some c'))]
    ∧ Client.status c' = Some "complete"%string
    ∧ identity c' = identity (mk 2 "X" "in-progress" 1).
Proof.
  apply (lookup_after_lane_change board 2 1%nat).
  - apply (bool_decide_unpack _). vm_compute. exact I.
  - reflexivity.
  - apply (bool_decide_unpack _). vm_compute. exact I.
  - discriminate.
Defined.

(** ** Requests that change nothing *)

(** X17.  A request for a known client that carries the client's current
    status and no priority, the priority 0 or the current priority: the
    handler sends the table as it read it and, with unique ids, the
    transaction leaves the table as it was. *)
Theorem request_of_current_values_changes_nothing db i t client s priority :
  list_find (λ c, Client.id c = i) db = Some (t, client) →
  s ∈ validStatuses →
  Client.status client = Some s →
  (priority = None
   ∨ ∃ p, priority = Some p
          ∧ (p = 0 ∨ (Client.priority client == inject_Z p)%Q)) →
  sent (put_client db (Request (Some i) (Some s) priority))
  = [Response 200 (Clients db)]
  ∧ (NoDup (Client.id <$> db) →
     commit db (writes (put_client db (Request (Some i) (Some s) priority)))
     = db).
Proof.
  intros Hfind Hs Hsame Hpriority.
  assert ((reorder db t client (Some s) priority).1 = db) as Hnoop.
  { apply reorder_noop; [done|].
    destruct Hpriority as [->|(p & -> & [->|Hp])]; simpl; [done..|].
    apply Qeq_bool_iff in Hp. rewrite Hp. apply andb_false_r. }
  rewrite (put_client_found db i t client);
    [|done|by apply valid_status_passes].
  simpl. rewrite Hnoop. split; [done|].
  intros Hids.
  pose proof (commit_reorder db t client (Some s) priority Hids) as Hcommit.
  by rewrite Hnoop in Hcommit.
Qed.

Lemma request_of_current_values_changes_nothing_witness :
  sent (put_client board
          (Request (Some 3) (Some "in-progress"%string) (Some 2)))
  = [Response 200 (Clients board)]
  ∧ (NoDup (Client.id <$> board) →
     commit board
       (writes (put_client board
                  (Request (Some 3) (Some "in-progress"%string) (Some 2))))
     = board).
Proof.
  apply (request_of_current_values_changes_nothing board 3 2%nat
           (mk 3 "Y" "in-progress" 2)).
  - reflexivity.
  - apply (bool_decide_unpack _). vm_compute. exact I.
  - reflexivity.
  - right. exists 2. split; [reflexivity|]. right. reflexivity.
Defined.

(** X18.  A change of lane without a priority, requested a second time on
    the table the first transaction left (unique ids): the handler sends
    the same list again and the table does not change. *)
Theorem lane_change_twice_is_once db i t client s :
  NoDup (Client.id <$> db) →
  list_find (λ c, Client.id c = i) db = Some (t, client) →
  s ∈ validStatuses →
  Client.status client ≠ Some s →
  let rq := Request (Some i) (Some s) None in
  let db' := commit db (writes (put_client db rq)) in
  sent (put_client db' rq) = sent (put_client db rq)
  ∧ commit db' (writes (put_client db' rq)) = db'.
Proof.
  intros Hids Hfind Hs Hdiff rq db'.
  assert (db' = changed db t client (Some s) None) as ->.
  { by apply table_after_lane_change. }
  destruct (target_after_lane_change db i t client s None)
    as (c' & Hfind' & Ht' & Hst & Hident); [done..|].
  unfold rq. rewrite (lane_change_sent db i t client) by done.
  rewrite !(put_client_found _ i t c');
    [|done|by apply valid_status_passes..].
  simpl.
  assert ((reorder (changed db t client (Some s) None) t c' (Some s) None).1
          = changed db t client (Some s) None) as Hnoop.
  { by apply reorder_noop. }
  split; [by rewrite Hnoop|].
  pose proof (commit_reorder (changed db t client (Some s) None) t c'
                (Some s) None) as Hcommit.
  rewrite Hnoop in *. apply Hcommit.
  by apply ids_after_lane_change with i.
Qed.

Lemma lane_change_twice_is_once_witness :
  let rq := Request (Some 1) (Some "in-progress"%string) None in
  let db' := commit board (writes (put_client board rq)) in
  sent (put_client db' rq) = sent (put_client board rq)
  ∧ commit db' (writes (put_client db' rq)) = db'.
Proof.
  apply (lane_change_twice_is_once board 1 0%nat (mk 1 "A" "backlog" 1)).
  - apply (bool_decide_unpack _). vm_compute. exact I.
  - reflexivity.
  - apply (bool_decide_unpack _). vm_compute. exact I.
  - discriminate.
Defined.
